(** * Language-change state machines of the portfolio front end

    A shallow embedding of the three components

    - [src/components/LanguageSelector/LanguageSelector.tsx],
    - the [LanguageMorphingTitle] component, and
    - [src/components/PageTransition/PageTransition.tsx],

    together with the properties their specification states.

    Conventions of the embedding.

    - A React component instance is a record of its [useState] cells, its
      [useRef] cells and the part of the browser it talks to (the clock
      behind [Date.now], the timer queue behind [setTimeout] and
      [clearTimeout], the console, [localStorage], the [window] event
      target and the [i18n] language).  Handlers, effect bodies and timer
      callbacks are programs of a small state monad over that record and
      are written statement by statement after the source.
    - [Date.now()] is an integer number of milliseconds: [Z].
    - A JavaScript [number] that holds a duration ([morphTime],
      [cooldownTime], a [setTimeout] delay) is a rational: [Q].  The
      arithmetic of the source is kept as written; rounding of IEEE
      doubles is not modelled.
    - A timer handle is a positive integer, as the HTML standard has it, so
      the test [if (animationTimeoutRef.current)] succeeds exactly when the
      reference is not [null]. *)

From Stdlib Require Import ZArith QArith Qminmax Qround String List Bool Lia Lqa.
From stdpp Require Import gmap strings.
Import ListNotations.

Local Open Scope string_scope.
Local Open Scope Z_scope.

(** ** The state monad and the browser's timer queue *)

Module Runtime.

Definition M (S A : Type) : Type := S -> A * S.

Definition ret {S A} (a : A) : M S A := fun s => (a, s).

Definition bind {S A B} (m : M S A) (k : A -> M S B) : M S B :=
  fun s => let r := m s in k (fst r) (snd r).

Definition gets {S A} (f : S -> A) : M S A := fun s => (f s, s).

Definition modify {S} (f : S -> S) : M S unit := fun s => (tt, f s).

(** [exec m s] is the state in which the program [m] leaves [s]. *)
Definition exec {S A} (m : M S A) (s : S) : S := snd (m s).

(** [if (c) { m }] without an [else]. *)
Definition when {S} (c : bool) (m : M S unit) : M S unit :=
  if c then m else ret tt.

(** A pending timer: its handle, the [Date.now()] at which [setTimeout]
    was called, the delay it was given and the callback it will run.
    The callback is a tag; each component interprets its own tags. *)
Record Timer (C : Type) : Type := mkTimer {
  timer_id : positive;
  timer_set : Z;
  timer_delay : Q;
  timer_cb : C
}.
Arguments mkTimer {C}.
Arguments timer_id {C}.
Arguments timer_set {C}.
Arguments timer_delay {C}.
Arguments timer_cb {C}.

(** The timer queue of one component instance. *)
Record Timers (C : Type) : Type := mkTimers {
  pending : list (Timer C);
  next_handle : positive
}.
Arguments mkTimers {C}.
Arguments pending {C}.
Arguments next_handle {C}.

(** [setTimeout(cb, delay)] called at time [now]. *)
Definition schedule {C} (now : Z) (delay : Q) (cb : C) (q : Timers C)
  : positive * Timers C :=
  let h := next_handle q in
  (h, mkTimers (pending q ++ [mkTimer h now delay cb]) (Pos.succ h)).

(** [clearTimeout(h)]. *)
Definition cancel {C} (h : positive) (q : Timers C) : Timers C :=
  mkTimers (List.filter (fun tm => negb (Pos.eqb (timer_id tm) h)) (pending q))
           (next_handle q).

Definition find_timer {C} (h : positive) (q : Timers C) : option (Timer C) :=
  List.find (fun tm => Pos.eqb (timer_id tm) h) (pending q).

(** A timer may fire once its delay has elapsed. *)
Definition due {C} (now : Z) (tm : Timer C) : bool :=
  Qle_bool (inject_Z (timer_set tm) + timer_delay tm) (inject_Z now).

End Runtime.

Import Runtime.

Declare Scope prog_scope.
Delimit Scope prog_scope with prog.
Notation "x <- m ;; k" := (bind m (fun x => k))
  (at level 100, m at next level, right associativity) : prog_scope.
Notation "m ;; k" := (bind m (fun _ => k))
  (at level 100, right associativity) : prog_scope.

(** ** LanguageSelector *)

Module LanguageSelector.

Local Open Scope prog_scope.

(** [const LANGUAGE_CHANGE_COOLDOWN = 3000;] *)
Definition LANGUAGE_CHANGE_COOLDOWN : Z := 3000.

(** The two callbacks the component hands to [setTimeout]:
    [() => setIsVisible(true)] and [() => setIsChangingLanguage(false)]. *)
Inductive Callback : Type := ShowSelector | ClearChanging.

(** [new CustomEvent(type, { detail: { previousLanguage, newLanguage } })] *)
Record CustomEvent : Type := mkEvent {
  event_type : string;
  previousLanguage : string;
  newLanguage : string
}.

(** The four [useState] cells. *)
Record State : Type := mkState {
  currentLang : string;
  isChangingLanguage : bool;
  lastChangeTime : Z;
  isVisible : bool
}.

(** What React keeps for the two [useEffect] hooks: the handles captured by
    the cleanup closures ([initialTimer], [timer]), the dependency array
    [[i18n.language, currentLang]] of the last committed render, and
    whether the instance is mounted. *)
Record Hooks : Type := mkHooks {
  initialTimer : option positive;
  timer : option positive;
  deps : option (option string * string);
  mounted : bool
}.

(** The browser and the i18n instance.  [i18n.language] may be
    [undefined] (the source reads it with [?.]). *)
Record Env : Type := mkEnv {
  i18n_language : option string;
  clock : Z;
  timers : Timers Callback;
  localStorage : gmap string string;
  dispatched : list CustomEvent;
  console : list string
}.

Record Sys : Type := mkSys { st : State; hk : Hooks; env : Env }.

Definition Prog : Type -> Type := M Sys.

Definition on_st (f : State -> State) : Prog unit :=
  modify (fun s => mkSys (f (st s)) (hk s) (env s)).
Definition on_hk (f : Hooks -> Hooks) : Prog unit :=
  modify (fun s => mkSys (st s) (f (hk s)) (env s)).
Definition on_env (f : Env -> Env) : Prog unit :=
  modify (fun s => mkSys (st s) (hk s) (f (env s))).

(** State setters. *)
Definition setCurrentLang (v : string) : Prog unit :=
  on_st (fun c => mkState v (isChangingLanguage c) (lastChangeTime c) (isVisible c)).
Definition setIsChangingLanguage (v : bool) : Prog unit :=
  on_st (fun c => mkState (currentLang c) v (lastChangeTime c) (isVisible c)).
Definition setLastChangeTime (v : Z) : Prog unit :=
  on_st (fun c => mkState (currentLang c) (isChangingLanguage c) v (isVisible c)).
Definition setIsVisible (v : bool) : Prog unit :=
  on_st (fun c => mkState (currentLang c) (isChangingLanguage c) (lastChangeTime c) v).

Definition set_initialTimer (v : option positive) : Prog unit :=
  on_hk (fun h => mkHooks v (timer h) (deps h) (mounted h)).
Definition set_timer (v : option positive) : Prog unit :=
  on_hk (fun h => mkHooks (initialTimer h) v (deps h) (mounted h)).
Definition set_deps (v : option (option string * string)) : Prog unit :=
  on_hk (fun h => mkHooks (initialTimer h) (timer h) v (mounted h)).
Definition set_mounted (v : bool) : Prog unit :=
  on_hk (fun h => mkHooks (initialTimer h) (timer h) (deps h) v).

Definition set_timers (q : Timers Callback) (e : Env) : Env :=
  mkEnv (i18n_language e) (clock e) q (localStorage e) (dispatched e) (console e).

(** Browser primitives. *)
Definition Date_now : Prog Z := gets (fun s => clock (env s)).

Definition console_log (msg : string) : Prog unit :=
  on_env (fun e => mkEnv (i18n_language e) (clock e) (timers e) (localStorage e)
                         (dispatched e) (console e ++ [msg])).

Definition dispatchEvent (ev : CustomEvent) : Prog unit :=
  on_env (fun e => mkEnv (i18n_language e) (clock e) (timers e) (localStorage e)
                         (dispatched e ++ [ev]) (console e)).

Definition localStorage_setItem (k v : string) : Prog unit :=
  on_env (fun e => mkEnv (i18n_language e) (clock e) (timers e)
                         (<[k := v]> (localStorage e)) (dispatched e) (console e)).

Definition setTimeout (cb : Callback) (delay : Q) : Prog positive :=
  fun s =>
    let r := schedule (clock (env s)) delay cb (timers (env s)) in
    (fst r, mkSys (st s) (hk s) (set_timers (snd r) (env s))).

Definition clearTimeout (h : positive) : Prog unit :=
  on_env (fun e => set_timers (cancel h (timers e)) e).

(** [i18n.language?.startsWith('es') ? 'es' : 'en'] *)
Definition lang_code (l : option string) : string :=
  match l with
  | Some s => if String.prefix "es" s then "es" else "en"
  | None => "en"
  end.

(** The string [localStorage.setItem] stores for its second argument. *)
Definition js_string (l : option string) : string :=
  match l with
  | Some s => s
  | None => "undefined"
  end.

(** [toggleLanguage], lines 115-142.  The three state cells the closure
    reads are read first; the setters take effect at the next render. *)
Definition toggleLanguage : Prog unit :=
  now <- Date_now ;;
  changing <- gets (fun s => isChangingLanguage (st s)) ;;
  last <- gets (fun s => lastChangeTime (st s)) ;;
  cur <- gets (fun s => currentLang (st s)) ;;
  if changing || (now - last <? LANGUAGE_CHANGE_COOLDOWN) then
    console_log "Por favor espera antes de cambiar el idioma nuevamente"
  else
    let previousLang := cur in
    let newLang := if String.eqb cur "en" then "es" else "en" in
    setIsChangingLanguage true ;;
    setLastChangeTime now ;;
    dispatchEvent (mkEvent "initiateLanguageChange" previousLang newLang) ;;
    setCurrentLang newLang.

Section Instance.

(** The [initialDelay] prop (1300 when the caller gives none). *)
Variable initialDelay : Q.

(** First effect, lines 88-94. *)
Definition initial_effect : Prog unit :=
  h <- setTimeout ShowSelector initialDelay ;;
  set_initialTimer (Some h).

Definition initial_cleanup : Prog unit :=
  h <- gets (fun s => initialTimer (hk s)) ;;
  match h with
  | Some h => clearTimeout h
  | None => ret tt
  end.

(** Second effect, lines 97-113. *)
Definition sync_effect : Prog unit :=
  l <- gets (fun s => i18n_language (env s)) ;;
  cur <- gets (fun s => currentLang (st s)) ;;
  let lang := lang_code l in
  when (negb (String.eqb cur lang)) (setCurrentLang lang) ;;
  h <- setTimeout ClearChanging 1000 ;;
  localStorage_setItem "i18nextLng" (js_string l) ;;
  set_timer (Some h).

(** [return () => clearTimeout(timer);] *)
Definition sync_cleanup : Prog unit :=
  h <- gets (fun s => timer (hk s)) ;;
  match h with
  | Some h => clearTimeout h
  | None => ret tt
  end.

(** A committed render: React runs the first effect once (its
    dependency [initialDelay] never changes for an instance) and runs
    the second effect, after the cleanup of its previous run, when
    [[i18n.language, currentLang]] differs from the array of the last
    committed render. *)
Definition commit : Prog unit :=
  m <- gets (fun s => mounted (hk s)) ;;
  if negb m then ret tt else
  d <- gets (fun s => deps (hk s)) ;;
  l <- gets (fun s => i18n_language (env s)) ;;
  cur <- gets (fun s => currentLang (st s)) ;;
  match d with
  | None =>
      initial_effect ;;
      sync_effect ;;
      set_deps (Some (l, cur))
  | Some d' =>
      if bool_decide (d' = (l, cur)) then ret tt
      else
        sync_cleanup ;;
        sync_effect ;;
        set_deps (Some (l, cur))
  end.

Definition unmount : Prog unit :=
  m <- gets (fun s => mounted (hk s)) ;;
  if negb m then ret tt else
  initial_cleanup ;;
  sync_cleanup ;;
  set_mounted false.

Definition run_callback (cb : Callback) : Prog unit :=
  match cb with
  | ShowSelector => setIsVisible true
  | ClearChanging => setIsChangingLanguage false
  end.

(** The browser takes a pending timer whose delay has elapsed off the
    queue and runs its callback. *)
Definition fire (h : positive) : Prog unit :=
  q <- gets (fun s => timers (env s)) ;;
  now <- Date_now ;;
  match find_timer h q with
  | Some tm =>
      if due now tm then
        clearTimeout h ;;
        run_callback (timer_cb tm)
      else ret tt
  | None => ret tt
  end.

(** What can happen to a mounted instance. *)
Inductive Action : Type :=
| Click                                (* the button's [onClick] *)
| Commit                               (* a render is committed *)
| Fire (h : positive)                  (* a timer fires *)
| Tick (d : N)                         (* [d] milliseconds pass *)
| SetLanguage (l : option string)      (* i18n changes its language *)
| Unmount.

Definition step (a : Action) : Prog unit :=
  match a with
  | Click =>
      m <- gets (fun s => mounted (hk s)) ;;
      if m then toggleLanguage else ret tt
  | Commit => commit
  | Fire h => fire h
  | Tick d =>
      on_env (fun e => mkEnv (i18n_language e) (clock e + Z.of_N d) (timers e)
                             (localStorage e) (dispatched e) (console e))
  | SetLanguage l =>
      on_env (fun e => mkEnv l (clock e) (timers e)
                             (localStorage e) (dispatched e) (console e))
  | Unmount => unmount
  end.

Fixpoint run (acts : list Action) (s : Sys) : Sys :=
  match acts with
  | [] => s
  | a :: rest => run rest (exec (step a) s)
  end.

(** The instance as the first render leaves it: the [useState]
    initialisers, no effect run yet. *)
Definition mount (l : option string) (now : Z) (h0 : positive)
  (storage : gmap string string) : Sys :=
  mkSys (mkState (lang_code l) false 0 false)
        (mkHooks None None None true)
        (mkEnv l now (mkTimers [] h0) storage [] []).

Inductive reachable : Sys -> Prop :=
| reach_mount l now h0 storage : reachable (mount l now h0 storage)
| reach_step a s : reachable s -> reachable (exec (step a) s).

End Instance.

(** *** Vocabulary of the specification *)

(** The guard of [toggleLanguage], as a proposition, and its negation. *)
Definition rejected (s : Sys) : Prop :=
  isChangingLanguage (st s) = true \/
  clock (env s) - lastChangeTime (st s) < LANGUAGE_CHANGE_COOLDOWN.

Definition accepted (s : Sys) : Prop :=
  isChangingLanguage (st s) = false /\
  LANGUAGE_CHANGE_COOLDOWN <= clock (env s) - lastChangeTime (st s).

(** The text a rejected call logs. *)
Definition wait_message : string :=
  "Por favor espera antes de cambiar el idioma nuevamente".

(** The displayed language is one of the two codes. *)
Definition two_codes (s : Sys) : Prop :=
  currentLang (st s) = "en" \/ currentLang (st s) = "es".

(** Handles in the queue are older than the next handle. *)
Definition fresh (q : Timers Callback) : Prop :=
  forall tm, In tm (pending q) -> (timer_id tm < next_handle q)%positive.

(** Every pending [ClearChanging] timer is the one the cleanup closure of
    the second effect holds, and was given 1000 ms. *)
Definition settle_only (q : Timers Callback) (held : option positive) : Prop :=
  forall tm, In tm (pending q) -> timer_cb tm = ClearChanging ->
    held = Some (timer_id tm) /\ timer_delay tm = 1000%Q.

Definition no_settle (q : Timers Callback) : Prop :=
  forall tm, In tm (pending q) -> timer_cb tm <> ClearChanging.

(** The invariant of a mounted or unmounted instance. *)
Definition inv (s : Sys) : Prop :=
  fresh (timers (env s)) /\
  settle_only (timers (env s)) (timer (hk s)) /\
  (deps (hk s) = None -> timer (hk s) = None) /\
  two_codes s.

(** The second effect is about to run: the instance is mounted and the
    dependency array [[i18n.language, currentLang]] differs from that of
    the last committed render. *)
Definition deps_changed (s : Sys) : Prop :=
  mounted (hk s) = true /\
  exists dp, deps (hk s) = Some dp /\
             dp <> (i18n_language (env s), currentLang (st s)).

(** The reading of the specification under which [isChangingLanguage] is
    cleared on external locale changes only: in every run of an instance,
    a step that clears it is preceded by a change of the i18n language. *)
Definition cleared_only_on_locale_change (initialDelay : Q) : Prop :=
  forall l now h0 storage acts a,
    let s := run initialDelay acts (mount l now h0 storage) in
    isChangingLanguage (st s) = true ->
    isChangingLanguage (st (exec (step initialDelay a) s)) = false ->
    exists l', In (SetLanguage l') acts.

(** *** Scenarios *)

(** A [Date.now()] of the year 2025. *)
Definition start_time : Z := 1750000000000.

(** The instance is mounted in English with the default [initialDelay]
    and its effects run. *)
Definition idle_en : Sys :=
  run 1300 [Commit] (mount (Some "en") start_time 1 ∅).

(** A double click: the button is clicked and, 500 ms later, about to be
    clicked again. *)
Definition after_first_click : Sys :=
  run 1300 [Click; Commit; Tick 500] idle_en.

(** The button has just been clicked and the render is not yet
    committed. *)
Definition just_clicked : Sys := run 1300 [Click] idle_en.

(** One click and no reaction of i18n: the two renders that follow the
    click, then one second. *)
Definition click_without_listener : list Action :=
  [Commit; Click; Commit; Commit; Tick 1000].

(** *** The render function *)

(** What the render function (lines 144-172) hands to the styled
    components: [$visible] of the container; [$changing], [disabled],
    [aria-label] and the text of the button. *)
Record View : Type := mkView {
  container_visible : bool;
  button_changing : bool;
  button_disabled : bool;
  aria_label : string;
  button_text : string
}.

Definition render (c : State) : View :=
  mkView (isVisible c)
         (isChangingLanguage c)
         (isChangingLanguage c)
         ("Cambiar a " ++ (if String.eqb (currentLang c) "en" then "Español" else "Inglés"))
         (if String.eqb (currentLang c) "en" then "EN" else "ES").

(** *** More vocabulary *)

(** An event as [toggleLanguage] builds it. *)
Definition well_formed_event (ev : CustomEvent) : Prop :=
  event_type ev = "initiateLanguageChange" /\
  previousLanguage ev <> newLanguage ev /\
  (previousLanguage ev = "en" \/ previousLanguage ev = "es") /\
  (newLanguage ev = "en" \/ newLanguage ev = "es").

(** Every pending [ShowSelector] timer is the one the cleanup closure of
    the first effect holds, and was given [initialDelay]. *)
Definition show_only (initialDelay : Q) (q : Timers Callback)
  (held : option positive) : Prop :=
  forall tm, In tm (pending q) -> timer_cb tm = ShowSelector ->
    held = Some (timer_id tm) /\ timer_delay tm = initialDelay.

(** The invariant of the first effect.  It has not run before the first
    committed render; its timer is the one [initialTimer] holds, an older
    handle than any the second effect holds; an unmounted instance has no
    timer; and as long as a mounted instance is not visible after its
    first committed render, the timer is pending. *)
Definition inv_initial (initialDelay : Q) (s : Sys) : Prop :=
  show_only initialDelay (timers (env s)) (initialTimer (hk s)) /\
  (deps (hk s) = None -> initialTimer (hk s) = None) /\
  (mounted (hk s) = false -> pending (timers (env s)) = []) /\
  (forall hi, initialTimer (hk s) = Some hi ->
     (hi < next_handle (timers (env s)))%positive /\
     forall ht, timer (hk s) = Some ht -> (hi < ht)%positive) /\
  (mounted (hk s) = true -> deps (hk s) <> None -> isVisible (st s) = false ->
   exists tm, In tm (pending (timers (env s))) /\ timer_cb tm = ShowSelector).


(** The instance is unmounted while a click is being processed. *)
Definition unmounted_mid_change : Sys := exec (step 1300 Unmount) just_clicked.

(** The last committed render saw the state as it is now. *)
Definition settled (s : Sys) : Prop :=
  mounted (hk s) = true /\
  deps (hk s) = Some (i18n_language (env s), currentLang (st s)).

(** What the second effect has left in [localStorage]: the language of
    the last committed render that ran it. *)
Definition stored_language (s : Sys) : Prop :=
  forall l cur, deps (hk s) = Some (l, cur) ->
    localStorage (env s) !! "i18nextLng" = Some (js_string l).

End LanguageSelector.


(** ** LanguageMorphingTitle *)

Module LanguageMorphingTitle.

Local Open Scope prog_scope.

(** [const MIN_ANIMATION_DURATION = 2500; // ms] *)
Definition MIN_ANIMATION_DURATION : Z := 2500.

(** The props the two effects read.  [morphTime] defaults to 1 and
    [cooldownTime] to 0.25 (seconds). *)
Record Props : Type := mkProps {
  translationKey : string;
  morphTime : Q;
  cooldownTime : Q
}.

Definition default_props (key : string) : Props := mkProps key 1 (1 # 4).

(** The only callback the component hands to [setTimeout] (lines 139-149). *)
Inductive Callback : Type := CompleteAnimation.

(** The five [console.log] calls, by line. *)
Inductive Log : Type :=
| LogLanguages (current previous : string)
| LogTooFast (timeElapsed : Z)
| LogDetected (oldText newText : string)
| LogStart (totalDuration : Q)
| LogCompleted (finalText : string).

(** The two [useState] cells; [texts] always holds two strings. *)
Record State : Type := mkState {
  shouldMorph : bool;
  texts : string * string
}.

(** The five [useRef] cells. *)
Record Refs : Type := mkRefs {
  previousLanguageRef : string;
  animationTimeoutRef : option positive;
  initializedRef : bool;
  isChangingRef : bool;
  lastChangeTimeRef : Z
}.

Record Env : Type := mkEnv {
  language : string;                (* i18n.language *)
  clock : Z;
  timers : Timers Callback;
  console : list Log
}.

Record Sys : Type := mkSys {
  st : State;
  refs : Refs;
  env : Env;
  mounted : bool
}.

Definition Prog : Type -> Type := M Sys.

Definition on_st (f : State -> State) : Prog unit :=
  modify (fun s => mkSys (f (st s)) (refs s) (env s) (mounted s)).
Definition on_refs (f : Refs -> Refs) : Prog unit :=
  modify (fun s => mkSys (st s) (f (refs s)) (env s) (mounted s)).
Definition on_env (f : Env -> Env) : Prog unit :=
  modify (fun s => mkSys (st s) (refs s) (f (env s)) (mounted s)).
Definition set_mounted (v : bool) : Prog unit :=
  modify (fun s => mkSys (st s) (refs s) (env s) v).

Definition setShouldMorph (v : bool) : Prog unit :=
  on_st (fun c => mkState v (texts c)).
Definition setTexts (v : string * string) : Prog unit :=
  on_st (fun c => mkState (shouldMorph c) v).

Definition set_previousLanguageRef (v : string) : Prog unit :=
  on_refs (fun r => mkRefs v (animationTimeoutRef r) (initializedRef r)
                           (isChangingRef r) (lastChangeTimeRef r)).
Definition set_animationTimeoutRef (v : option positive) : Prog unit :=
  on_refs (fun r => mkRefs (previousLanguageRef r) v (initializedRef r)
                           (isChangingRef r) (lastChangeTimeRef r)).
Definition set_initializedRef (v : bool) : Prog unit :=
  on_refs (fun r => mkRefs (previousLanguageRef r) (animationTimeoutRef r) v
                           (isChangingRef r) (lastChangeTimeRef r)).
Definition set_isChangingRef (v : bool) : Prog unit :=
  on_refs (fun r => mkRefs (previousLanguageRef r) (animationTimeoutRef r)
                           (initializedRef r) v (lastChangeTimeRef r)).
Definition set_lastChangeTimeRef (v : Z) : Prog unit :=
  on_refs (fun r => mkRefs (previousLanguageRef r) (animationTimeoutRef r)
                           (initializedRef r) (isChangingRef r) v).

Definition set_timers (q : Timers Callback) (e : Env) : Env :=
  mkEnv (language e) (clock e) q (console e).

Definition Date_now : Prog Z := gets (fun s => clock (env s)).

Definition console_log (l : Log) : Prog unit :=
  on_env (fun e => mkEnv (language e) (clock e) (timers e) (console e ++ [l])).

Definition setTimeout (cb : Callback) (delay : Q) : Prog positive :=
  fun s =>
    let r := schedule (clock (env s)) delay cb (timers (env s)) in
    (fst r, mkSys (st s) (refs s) (set_timers (snd r) (env s)) (mounted s)).

Definition clearTimeout (h : positive) : Prog unit :=
  on_env (fun e => set_timers (cancel h (timers e)) e).

Section Instance.

(** The translation function of react-i18next, an external collaborator:
    [t lng key] is [t(key, { lng })], and [t(key)] is [t lng key] at the
    language i18n has when the call is made. *)
Variable t : string -> string -> string.

(** The props of the instance, fixed for its lifetime. *)
Variable props : Props.

(** [getTotalAnimationDuration], lines 85-89. *)
Definition getTotalAnimationDuration : Q :=
  let calculatedDuration := ((morphTime props + cooldownTime props) * 1000 + 500)%Q in
  Qmax calculatedDuration (inject_Z MIN_ANIMATION_DURATION).

(** First effect, lines 75-82. *)
Definition init_effect : Prog unit :=
  initialized <- gets (fun s => initializedRef (refs s)) ;;
  if negb initialized then
    lang <- gets (fun s => language (env s)) ;;
    let currentText := t lang (translationKey props) in
    setTexts (currentText, currentText) ;;
    set_initializedRef true
  else ret tt.

(** The callback of the completion timer, lines 139-149. *)
Definition complete_animation : Prog unit :=
  setShouldMorph false ;;
  set_isChangingRef false ;;
  set_animationTimeoutRef None ;;
  lang <- gets (fun s => language (env s)) ;;
  let finalText := t lang (translationKey props) in
  setTexts (finalText, finalText) ;;
  console_log (LogCompleted finalText).

(** Second effect, lines 92-158. *)
Definition language_effect : Prog unit :=
  lang <- gets (fun s => language (env s)) ;;
  prev <- gets (fun s => previousLanguageRef (refs s)) ;;
  console_log (LogLanguages lang prev) ;;
  changing <- gets (fun s => isChangingRef (refs s)) ;;
  if changing then ret tt
  else if negb (String.eqb prev lang) then
    now <- Date_now ;;
    last <- gets (fun s => lastChangeTimeRef (refs s)) ;;
    let timeElapsed := now - last in
    when (timeElapsed <? MIN_ANIMATION_DURATION) (console_log (LogTooFast timeElapsed)) ;;
    set_isChangingRef true ;;
    set_lastChangeTimeRef now ;;
    let oldText := t prev (translationKey props) in
    let newText := t lang (translationKey props) in
    console_log (LogDetected oldText newText) ;;
    (if negb (String.eqb oldText newText) then
       setTexts (oldText, newText) ;;
       setShouldMorph true ;;
       pendingTimeout <- gets (fun s => animationTimeoutRef (refs s)) ;;
       match pendingTimeout with
       | Some h => clearTimeout h ;; set_animationTimeoutRef None
       | None => ret tt
       end ;;
       let totalDuration := getTotalAnimationDuration in
       console_log (LogStart totalDuration) ;;
       h <- setTimeout CompleteAnimation totalDuration ;;
       set_animationTimeoutRef (Some h)
     else
       set_isChangingRef false) ;;
    set_previousLanguageRef lang
  else ret tt.

(** The cleanup of the third effect, lines 161-168. *)
Definition unmount_cleanup : Prog unit :=
  pendingTimeout <- gets (fun s => animationTimeoutRef (refs s)) ;;
  match pendingTimeout with
  | Some h => clearTimeout h ;; set_animationTimeoutRef None
  | None => ret tt
  end.

(** A committed render of a mounted instance.  The first effect runs when
    [[t, translationKey]] changed and the second when one of
    [[i18n.language, t, translationKey, morphTime, cooldownTime]] did; the
    identity of [t] is in the hands of react-i18next, so a commit may run
    both, in source order. *)
Definition commit : Prog unit :=
  m <- gets mounted ;;
  if m then init_effect ;; language_effect else ret tt.

Definition unmount : Prog unit :=
  m <- gets mounted ;;
  if m then unmount_cleanup ;; set_mounted false else ret tt.

(** The browser takes a pending timer whose delay has elapsed off the
    queue and runs its callback. *)
Definition fire (h : positive) : Prog unit :=
  q <- gets (fun s => timers (env s)) ;;
  now <- Date_now ;;
  match find_timer h q with
  | Some tm =>
      if due now tm then
        clearTimeout h ;;
        match timer_cb tm with
        | CompleteAnimation => complete_animation
        end
      else ret tt
  | None => ret tt
  end.

Inductive Action : Type :=
| Commit                          (* a render is committed *)
| Fire (h : positive)             (* a timer fires *)
| Tick (d : N)                    (* [d] milliseconds pass *)
| SetLanguage (l : string)        (* i18n changes its language *)
| Unmount.

Definition step (a : Action) : Prog unit :=
  match a with
  | Commit => commit
  | Fire h => fire h
  | Tick d => on_env (fun e => mkEnv (language e) (clock e + Z.of_N d) (timers e) (console e))
  | SetLanguage l => on_env (fun e => mkEnv l (clock e) (timers e) (console e))
  | Unmount => unmount
  end.

Fixpoint run (acts : list Action) (s : Sys) : Sys :=
  match acts with
  | [] => s
  | a :: rest => run rest (exec (step a) s)
  end.

(** The instance as the first render leaves it: the [useState] and
    [useRef] initialisers, no effect run yet, no timer of its own. *)
Definition mount (lang : string) (now : Z) (h0 : positive) : Sys :=
  mkSys (mkState false ("", ""))
        (mkRefs lang None false false 0)
        (mkEnv lang now (mkTimers [] h0) [])
        true.

Inductive reachable : Sys -> Prop :=
| reach_mount lang now h0 : reachable (mount lang now h0)
| reach_step a s : reachable s -> reachable (exec (step a) s).

End Instance.

(** *** Vocabulary of the specification *)

Section Vocabulary.

Variable t : string -> string -> string.
Variable props : Props.

(** The texts the second effect resolves: for the last-seen language and
    for the language i18n has now. *)
Definition oldText (s : Sys) : string :=
  t (previousLanguageRef (refs s)) (translationKey props).

Definition newText (s : Sys) : string :=
  t (language (env s)) (translationKey props).

(** A language change is detected and no transition is in flight: the
    second effect passes both of its guards. *)
Definition detects_change (s : Sys) : Prop :=
  isChangingRef (refs s) = false /\
  previousLanguageRef (refs s) <> language (env s).

(** Less than [MIN_ANIMATION_DURATION] since the last accepted change. *)
Definition too_frequent (s : Sys) : Prop :=
  clock (env s) - lastChangeTimeRef (refs s) < MIN_ANIMATION_DURATION.

(** The completion timer the second effect queues in state [s]. *)
Definition completion_timer (s : Sys) : Timer Callback :=
  mkTimer (next_handle (timers (env s))) (clock (env s))
          (getTotalAnimationDuration props) CompleteAnimation.

(** The console after the first [console.log] of the second effect. *)
Definition logged_languages (s : Sys) : list Log :=
  console (env s)
    ++ [LogLanguages (language (env s)) (previousLanguageRef (refs s))].

(** The console after the effect has resolved both texts. *)
Definition logged_detected (s : Sys) : list Log :=
  let elapsed := clock (env s) - lastChangeTimeRef (refs s) in
  (if elapsed <? MIN_ANIMATION_DURATION
   then logged_languages s ++ [LogTooFast elapsed]
   else logged_languages s)
    ++ [LogDetected (oldText s) (newText s)].

(** The queue after the effect has cancelled the timer it holds. *)
Definition cleared_queue (s : Sys) : Timers Callback :=
  match animationTimeoutRef (refs s) with
  | Some h => cancel h (timers (env s))
  | None => timers (env s)
  end.

(** The three outcomes of the second effect.  It returns early, or finds
    the language unchanged: only the first line is logged. *)
Definition ignored (s : Sys) : Sys :=
  mkSys (st s) (refs s)
        (mkEnv (language (env s)) (clock (env s)) (timers (env s)) (logged_languages s))
        (mounted s).

(** The effect finds the same text in both languages. *)
Definition skipped (s : Sys) : Sys :=
  mkSys (st s)
        (mkRefs (language (env s)) (animationTimeoutRef (refs s))
                (initializedRef (refs s)) false (clock (env s)))
        (mkEnv (language (env s)) (clock (env s)) (timers (env s)) (logged_detected s))
        (mounted s).

(** The effect starts the animation. *)
Definition morphing (s : Sys) : Sys :=
  let q := cleared_queue s in
  mkSys (mkState true (oldText s, newText s))
        (mkRefs (language (env s)) (Some (next_handle q))
                (initializedRef (refs s)) true (clock (env s)))
        (mkEnv (language (env s)) (clock (env s))
               (snd (schedule (clock (env s)) (getTotalAnimationDuration props) CompleteAnimation q))
               (logged_detected s ++ [LogStart (getTotalAnimationDuration props)]))
        (mounted s).

(** The state, the references and the timer queue are those of [s]. *)
Definition untouched (s s' : Sys) : Prop :=
  st s' = st s /\ refs s' = refs s /\ timers (env s') = timers (env s) /\
  mounted s' = mounted s.

(** The reading of the specification under which a change that comes too
    soon after the last accepted one is rejected. *)
Definition rejects_too_frequent : Prop :=
  forall s, detects_change s -> too_frequent s ->
    untouched s (exec (language_effect t props) s).

(** The reading of the specification under which a change between two
    languages with the same text updates the last-seen language and
    nothing else. *)
Definition updates_only_last_seen : Prop :=
  forall s, detects_change s -> oldText s = newText s ->
    let s' := exec (language_effect t props) s in
    st s' = st s /\ timers (env s') = timers (env s) /\
    refs s' = mkRefs (language (env s)) (animationTimeoutRef (refs s))
                (initializedRef (refs s)) (isChangingRef (refs s))
                (lastChangeTimeRef (refs s)).

End Vocabulary.

(** At most one timer is pending, and it is the one
    [animationTimeoutRef] holds. *)
Definition at_most_one (s : Sys) : Prop :=
  pending (timers (env s)) = [] \/
  exists tm, pending (timers (env s)) = [tm] /\
             animationTimeoutRef (refs s) = Some (timer_id tm).

(** The invariant of an instance: at most one timer, and none once the
    instance is unmounted; the title morphs only while a transition is in
    flight, and a transition is in flight only after the first effect has
    run. *)
Definition inv (s : Sys) : Prop :=
  at_most_one s /\
  (mounted s = false -> pending (timers (env s)) = []) /\
  (shouldMorph (st s) = true -> isChangingRef (refs s) = true) /\
  (isChangingRef (refs s) = true -> initializedRef (refs s) = true).

(** The state [s] with another time of the last accepted change. *)
Definition with_last_change (v : Z) (s : Sys) : Sys :=
  mkSys (st s)
        (mkRefs (previousLanguageRef (refs s)) (animationTimeoutRef (refs s))
                (initializedRef (refs s)) (isChangingRef (refs s)) v)
        (env s) (mounted s).

(** *** The render function *)

(** What the render function (lines 170-192) returns: the plain title of
    lines 171-178, or the [GooeyText] of lines 180-192 with the
    [shouldMorph] of its container, its [key], its [texts] and its two
    times. *)
Inductive View : Type :=
| StaticTitle (currentText : string)
| GooeyTitle (container_shouldMorph : bool) (key : string)
             (gooey_texts : string * string) (gooey_morphTime gooey_cooldownTime : Q).

(** [!x] for a string: the empty string is the only falsy one. *)
Definition falsy (x : string) : bool :=
  match x with
  | EmptyString => true
  | String _ _ => false
  end.

Section Render.

Variable t : string -> string -> string.
Variable props : Props.

(** [lang] is the [i18n.language] of the render. *)
Definition render (lang : string) (c : State) : View :=
  if falsy (fst (texts c)) && falsy (snd (texts c)) then
    StaticTitle (t lang (translationKey props))
  else
    GooeyTitle (shouldMorph c)
               (if shouldMorph c then "morphing-" ++ lang else lang)
               (texts c)
               (if shouldMorph c then morphTime props else 0)
               (if shouldMorph c then cooldownTime props else 0).

(** The invariant of the display pair and of the completion timer.  The
    two slots are equal exactly when the title does not morph; the title
    morphs exactly while the in-flight guard is set; a timer is pending
    only then, was queued at the time of the last accepted change with
    the total duration of the animation, and is pending as long as the
    guard of a mounted instance is set. *)
Definition inv_display (s : Sys) : Prop :=
  (shouldMorph (st s) = false -> fst (texts (st s)) = snd (texts (st s))) /\
  (shouldMorph (st s) = true -> fst (texts (st s)) <> snd (texts (st s))) /\
  (isChangingRef (refs s) = true -> shouldMorph (st s) = true) /\
  (isChangingRef (refs s) = false -> pending (timers (env s)) = []) /\
  (forall tm, In tm (pending (timers (env s))) ->
     timer_set tm = lastChangeTimeRef (refs s) /\
     timer_delay tm = getTotalAnimationDuration props) /\
  (mounted s = true -> isChangingRef (refs s) = true -> pending (timers (env s)) <> []).

End Render.

(** A catalogue for the examples: the key ["title"] reads ["Hola"] in
    Spanish and ["Hello"] in every other language; any other key is its
    own text. *)
Definition demo_t (lng key : string) : string :=
  if String.eqb key "title" then
    if String.prefix "es" lng then "Hola" else "Hello"
  else key.

(** *** Scenarios, with [demo_t] and the default props of ["title"] *)

Definition demo_props : Props := default_props "title".

(** A [Date.now()] of the year 2025. *)
Definition start_time : Z := 1750000000000.

(** Mounted in English, effects run. *)
Definition idle_en : Sys :=
  run demo_t demo_props [Commit] (mount "en" start_time 1).

(** i18n has switched to Spanish; the render is not yet committed. *)
Definition en_to_es : Sys :=
  run demo_t demo_props [SetLanguage "es"] idle_en.

(** The transition from English to Spanish is in flight and i18n has
    switched back to English 500 ms later. *)
Definition morphing_es : Sys :=
  run demo_t demo_props [Commit; Tick 500; SetLanguage "en"] en_to_es.

(** i18n has switched to French, which reads like English. *)
Definition en_to_fr : Sys :=
  run demo_t demo_props [SetLanguage "fr"] idle_en.

(** The switch to French was processed; 500 ms later i18n switches to
    Spanish. *)
Definition fr_to_es_soon : Sys :=
  run demo_t demo_props [Commit; Tick 500; SetLanguage "es"] en_to_fr.


End LanguageMorphingTitle.


(** ** PageTransition *)

Module PageTransition.

(** The [mode] prop of framer-motion's [AnimatePresence]. *)
Inductive PresenceMode : Type := Sync | Wait | PopLayout.

(** An animation target, [{ opacity, y }]. *)
Record Target : Type := mkTarget { opacity : Q; y : Z }.

(** [transition={{ type, ease, duration }}] *)
Record Transition : Type := mkTransition {
  transition_type : string;
  ease : string;
  duration : Q
}.

(** The [PageContainer] element, a [motion.div]. *)
Record PageContainer (Node : Type) : Type := mkPageContainer {
  key : string;
  initial : Target;
  animate : Target;
  exit : Target;
  transition : Transition;
  children : Node
}.
Arguments mkPageContainer {Node}.
Arguments key {Node}.
Arguments initial {Node}.
Arguments animate {Node}.
Arguments exit {Node}.
Arguments transition {Node}.
Arguments children {Node}.

(** The [AnimatePresence] element and its single child. *)
Record AnimatePresence (Node : Type) : Type := mkAnimatePresence {
  mode : PresenceMode;
  child : PageContainer Node
}.
Arguments mkAnimatePresence {Node}.
Arguments mode {Node}.
Arguments child {Node}.

(** The render function, lines 21-41; [pathname] is
    [useLocation().pathname]. *)
Definition PageTransition {Node : Type} (pathname : string) (content : Node)
  : AnimatePresence Node :=
  mkAnimatePresence Wait
    (mkPageContainer pathname
       (mkTarget 0 20)
       (mkTarget 1 0)
       (mkTarget 0 (-20))
       (mkTransition "tween" "easeInOut" (1 # 2))
       content).

End PageTransition.


(** * Facts about the runtime *)

Module RuntimeFacts.

Lemma exec_bind {S A B} (m : M S A) (k : A -> M S B) (s : S) :
  exec (bind m k) s = exec (k (fst (m s))) (exec m s).
Proof. reflexivity. Qed.

Section Queue.

Context {C : Type}.
Implicit Types (q : Timers C) (tm : Timer C) (h : positive).

Lemma in_cancel h q tm :
  In tm (pending (cancel h q)) <-> In tm (pending q) /\ timer_id tm <> h.
Proof.
  unfold cancel. cbn [pending]. rewrite filter_In.
  split; intros [Hin Hid]; split; try exact Hin.
  - intros E. rewrite E, Pos.eqb_refl in Hid. discriminate.
  - apply negb_true_iff, Pos.eqb_neq. exact Hid.
Qed.

Lemma in_schedule now delay cb q tm :
  In tm (pending (snd (schedule now delay cb q))) <->
  In tm (pending q) \/ tm = mkTimer (next_handle q) now delay cb.
Proof.
  unfold schedule. cbn [snd pending]. rewrite in_app_iff. cbn [In].
  intuition congruence.
Qed.

Lemma next_handle_cancel h q : next_handle (cancel h q) = next_handle q.
Proof. reflexivity. Qed.

Lemma next_handle_schedule now delay cb q :
  next_handle (snd (schedule now delay cb q)) = Pos.succ (next_handle q).
Proof. reflexivity. Qed.

Lemma find_timer_some h q tm :
  find_timer h q = Some tm -> In tm (pending q) /\ timer_id tm = h.
Proof.
  unfold find_timer. intros Hf. apply find_some in Hf. destruct Hf as [Hin Hid].
  split; [exact Hin | apply Pos.eqb_eq; exact Hid].
Qed.


(** The timer [setTimeout] has just queued is the one its handle names,
    provided the handles in the queue are older. *)
Lemma find_timer_scheduled now delay cb q :
  (forall tm, In tm (pending q) -> (timer_id tm < next_handle q)%positive) ->
  find_timer (next_handle q) (snd (schedule now delay cb q))
    = Some (mkTimer (next_handle q) now delay cb).
Proof.
  intros Hfresh. unfold find_timer, schedule. cbn [snd pending].
  induction (pending q) as [| tm l IH]; cbn [app find timer_id].
  - rewrite Pos.eqb_refl. reflexivity.
  - assert (Hlt : (timer_id tm < next_handle q)%positive)
      by (apply Hfresh; left; reflexivity).
    destruct (Pos.eqb_spec (timer_id tm) (next_handle q)) as [E | _].
    + rewrite E in Hlt. exfalso. exact (Pos.lt_irrefl _ Hlt).
    + apply IH. intros tm' Hin. apply Hfresh. right. exact Hin.
Qed.

(** When the delay is a whole number of milliseconds, [due] compares
    integers. *)
Lemma due_whole now tm (d : Z) :
  timer_delay tm = inject_Z d ->
  due now tm = true <-> timer_set tm + d <= now.
Proof.
  intros E. unfold due. rewrite E, Qle_bool_iff, <- inject_Z_plus, <- Zle_Qle.
  reflexivity.
Qed.

End Queue.

End RuntimeFacts.

Import RuntimeFacts.

(** Reduction of the monad's plumbing, without touching the data. *)
Ltac prog_red := cbv beta zeta; cbn [fst snd].
Ltac prog_unfold :=
  unfold when; unfold exec, bind, ret, gets, modify; prog_red.


(** * Properties of LanguageSelector *)

Module LanguageSelectorFacts.

Import LanguageSelector.

Ltac ls_unfold :=
  unfold on_st, on_hk, on_env, Date_now; prog_unfold.

(** ** [toggleLanguage] *)

Lemma rejected_guard (s : Sys) :
  rejected s ->
  isChangingLanguage (st s)
    || (clock (env s) - lastChangeTime (st s) <? LANGUAGE_CHANGE_COOLDOWN) = true.
Proof.
  intros [Hc | Ht].
  - rewrite Hc. reflexivity.
  - apply orb_true_iff. right. apply Z.ltb_lt. exact Ht.
Qed.

Lemma accepted_guard (s : Sys) :
  accepted s ->
  isChangingLanguage (st s)
    || (clock (env s) - lastChangeTime (st s) <? LANGUAGE_CHANGE_COOLDOWN) = false.
Proof.
  intros [Hc Ht]. rewrite Hc. cbn [orb]. apply Z.ltb_ge. exact Ht.
Qed.

(** [toggleLanguage] as one case distinction on its guard. *)
Lemma toggleLanguage_unfold (s : Sys) :
  exec toggleLanguage s =
  if isChangingLanguage (st s)
       || (clock (env s) - lastChangeTime (st s) <? LANGUAGE_CHANGE_COOLDOWN)
  then mkSys (st s) (hk s)
         (mkEnv (i18n_language (env s)) (clock (env s)) (timers (env s))
            (localStorage (env s)) (dispatched (env s))
            (console (env s) ++ [wait_message]))
  else
    let next := if String.eqb (currentLang (st s)) "en" then "es" else "en" in
    mkSys (mkState next true (clock (env s)) (isVisible (st s))) (hk s)
      (mkEnv (i18n_language (env s)) (clock (env s)) (timers (env s))
         (localStorage (env s))
         (dispatched (env s)
            ++ [mkEvent "initiateLanguageChange" (currentLang (st s)) next])
         (console (env s))).
Proof.
  unfold toggleLanguage, console_log, setIsChangingLanguage, setLastChangeTime,
    dispatchEvent, setCurrentLang.
  ls_unfold.
  destruct (isChangingLanguage (st s)
            || (clock (env s) - lastChangeTime (st s) <? LANGUAGE_CHANGE_COOLDOWN));
    reflexivity.
Qed.

(** C1.  A call to [toggleLanguage] made while [isChangingLanguage] is
    true, or less than 3000 ms after [lastChangeTime], does nothing: the
    displayed language, [isChangingLanguage] and [lastChangeTime] (all of
    the component's state) are unchanged, no event is dispatched, and no
    timer or storage entry is touched; the call only logs a message. *)
Theorem toggleLanguage_rejected_is_noop (s : Sys) :
  rejected s ->
  let s' := exec toggleLanguage s in
  st s' = st s /\
  hk s' = hk s /\
  dispatched (env s') = dispatched (env s) /\
  timers (env s') = timers (env s) /\
  localStorage (env s') = localStorage (env s) /\
  i18n_language (env s') = i18n_language (env s) /\
  console (env s') = (console (env s) ++ [wait_message])%list.
Proof.
  intros Hrej. cbv zeta.
  rewrite toggleLanguage_unfold, (rejected_guard s Hrej).
  repeat split.
Qed.

Lemma toggleLanguage_rejected_is_noop_witness :
  rejected after_first_click /\
  st (exec toggleLanguage after_first_click) = st after_first_click /\
  dispatched (env (exec toggleLanguage after_first_click))
    = dispatched (env after_first_click).
Proof.
  assert (H : rejected after_first_click) by (left; vm_compute; reflexivity).
  split; [exact H |].
  pose proof (toggleLanguage_rejected_is_noop after_first_click H) as P.
  cbv zeta in P. split; apply P.
Defined.

(** C6.  An accepted call to [toggleLanguage] (not changing, at least
    3000 ms after the last change) takes the other of the two codes as the
    next language, sets [isChangingLanguage], records the current time in
    [lastChangeTime], shows the next language, and dispatches exactly one
    event, which carries the previous and the next language. *)
Theorem toggleLanguage_accepted (s : Sys) :
  accepted s ->
  two_codes s ->
  let s' := exec toggleLanguage s in
  let next := currentLang (st s') in
  next = (if String.eqb (currentLang (st s)) "en" then "es" else "en") /\
  next <> currentLang (st s) /\
  two_codes s' /\
  isChangingLanguage (st s') = true /\
  lastChangeTime (st s') = clock (env s) /\
  dispatched (env s')
    = (dispatched (env s)
         ++ [mkEvent "initiateLanguageChange" (currentLang (st s)) next])%list.
Proof.
  intros Hacc Hcodes. cbv zeta.
  rewrite toggleLanguage_unfold, (accepted_guard s Hacc).
  unfold two_codes in *. cbn [st env currentLang isChangingLanguage lastChangeTime dispatched].
  destruct Hcodes as [-> | ->]; cbn; repeat split; auto; discriminate.
Qed.

Lemma toggleLanguage_accepted_witness :
  accepted idle_en /\ two_codes idle_en /\
  currentLang (st (exec toggleLanguage idle_en)) = "es" /\
  dispatched (env (exec toggleLanguage idle_en))
    = [mkEvent "initiateLanguageChange" "en" "es"].
Proof.
  assert (Ha : accepted idle_en) by (split; vm_compute; [reflexivity | discriminate]).
  assert (Hc : two_codes idle_en) by (left; vm_compute; reflexivity).
  split; [exact Ha |]. split; [exact Hc |].
  pose proof (toggleLanguage_accepted idle_en Ha Hc) as P. cbv zeta in P.
  destruct P as (Hnext & _ & _ & _ & _ & Hev).
  split.
  - rewrite Hnext. vm_compute. reflexivity.
  - rewrite Hev. vm_compute. reflexivity.
Defined.

(** ** The effects, the timers and the steps, in closed form *)

Lemma sync_effect_unfold (s : Sys) :
  exec sync_effect s =
  let l := i18n_language (env s) in
  let h := next_handle (timers (env s)) in
  mkSys (mkState (lang_code l) (isChangingLanguage (st s)) (lastChangeTime (st s))
           (isVisible (st s)))
        (mkHooks (initialTimer (hk s)) (Some h) (deps (hk s)) (mounted (hk s)))
        (mkEnv l (clock (env s))
           (mkTimers (pending (timers (env s))
                        ++ [mkTimer h (clock (env s)) 1000 ClearChanging])
                     (Pos.succ h))
           (<["i18nextLng" := js_string l]> (localStorage (env s)))
           (dispatched (env s)) (console (env s))).
Proof.
  unfold sync_effect, setCurrentLang, setTimeout, localStorage_setItem, set_timer,
    set_timers, schedule.
  ls_unfold.
  destruct (String.eqb_spec (currentLang (st s)) (lang_code (i18n_language (env s))))
    as [E | E]; cbn [negb]; prog_red.
  - cbn [st hk env]. rewrite <- E. destruct s as [[] ? ?]. reflexivity.
  - reflexivity.
Qed.

Lemma sync_cleanup_unfold (s : Sys) :
  exec sync_cleanup s =
  match timer (hk s) with
  | Some h => mkSys (st s) (hk s) (set_timers (cancel h (timers (env s))) (env s))
  | None => s
  end.
Proof.
  unfold sync_cleanup, clearTimeout. ls_unfold.
  destruct (timer (hk s)); reflexivity.
Qed.

Lemma st_sync_cleanup (s : Sys) : st (exec sync_cleanup s) = st s.
Proof. rewrite sync_cleanup_unfold. destruct (timer (hk s)); reflexivity. Qed.

Lemma initial_effect_unfold d (s : Sys) :
  exec (initial_effect d) s =
  let h := next_handle (timers (env s)) in
  mkSys (st s)
        (mkHooks (Some h) (timer (hk s)) (deps (hk s)) (mounted (hk s)))
        (set_timers (snd (schedule (clock (env s)) d ShowSelector (timers (env s))))
                    (env s)).
Proof. reflexivity. Qed.

Lemma initial_cleanup_unfold (s : Sys) :
  exec initial_cleanup s =
  match initialTimer (hk s) with
  | Some h => mkSys (st s) (hk s) (set_timers (cancel h (timers (env s))) (env s))
  | None => s
  end.
Proof.
  unfold initial_cleanup, clearTimeout. ls_unfold.
  destruct (initialTimer (hk s)); reflexivity.
Qed.

Lemma st_initial_cleanup (s : Sys) : st (exec initial_cleanup s) = st s.
Proof. rewrite initial_cleanup_unfold. destruct (initialTimer (hk s)); reflexivity. Qed.

Lemma set_deps_unfold v (s : Sys) :
  exec (set_deps v) s =
  mkSys (st s) (mkHooks (initialTimer (hk s)) (timer (hk s)) v (mounted (hk s))) (env s).
Proof. reflexivity. Qed.

Lemma selector_commit_unfold d (s : Sys) :
  exec (commit d) s =
  if mounted (hk s) then
    let dp := Some (i18n_language (env s), currentLang (st s)) in
    match deps (hk s) with
    | None => exec (set_deps dp) (exec sync_effect (exec (initial_effect d) s))
    | Some d' =>
        if bool_decide (d' = (i18n_language (env s), currentLang (st s))) then s
        else exec (set_deps dp) (exec sync_effect (exec sync_cleanup s))
    end
  else s.
Proof.
  unfold commit. prog_unfold.
  destruct (mounted (hk s)); cbn [negb]; [| reflexivity].
  destruct (deps (hk s)) as [d' |]; [| reflexivity].
  destruct (bool_decide _); reflexivity.
Qed.

Lemma selector_unmount_unfold (s : Sys) :
  exec unmount s =
  if mounted (hk s)
  then exec (set_mounted false) (exec sync_cleanup (exec initial_cleanup s))
  else s.
Proof.
  unfold unmount. prog_unfold. destruct (mounted (hk s)); reflexivity.
Qed.

Lemma selector_fire_unfold (h : positive) (s : Sys) :
  exec (fire h) s =
  match find_timer h (timers (env s)) with
  | Some tm =>
      if due (clock (env s)) tm then
        let s1 := mkSys (st s) (hk s) (set_timers (cancel h (timers (env s))) (env s)) in
        match timer_cb tm with
        | ShowSelector =>
            mkSys (mkState (currentLang (st s)) (isChangingLanguage (st s))
                     (lastChangeTime (st s)) true) (hk s1) (env s1)
        | ClearChanging =>
            mkSys (mkState (currentLang (st s)) false
                     (lastChangeTime (st s)) (isVisible (st s))) (hk s1) (env s1)
        end
      else s
  | None => s
  end.
Proof.
  unfold fire, clearTimeout, run_callback, setIsVisible, setIsChangingLanguage.
  ls_unfold.
  destruct (find_timer h (timers (env s))) as [tm |]; [| reflexivity].
  destruct (due (clock (env s)) tm); [| reflexivity].
  destruct (timer_cb tm); reflexivity.
Qed.

(** ** The invariant *)

Ltac ls_proj :=
  cbn [st hk env currentLang isChangingLanguage lastChangeTime isVisible
       initialTimer timer deps mounted i18n_language clock timers localStorage
       dispatched console set_timers].

Lemma lang_code_two (l : option string) : lang_code l = "en" \/ lang_code l = "es".
Proof.
  destruct l as [x |]; cbn [lang_code]; [| left; reflexivity].
  destruct (String.prefix "es" x); [right | left]; reflexivity.
Qed.

Lemma fresh_cancel h q : fresh q -> fresh (cancel h q).
Proof.
  intros Hf tm Hin. apply in_cancel in Hin. rewrite next_handle_cancel.
  apply Hf, Hin.
Qed.

Lemma fresh_schedule now d cb q : fresh q -> fresh (snd (schedule now d cb q)).
Proof.
  intros Hf tm Hin. apply in_schedule in Hin. rewrite next_handle_schedule.
  destruct Hin as [Hin | ->].
  - apply Pos.lt_lt_succ, Hf, Hin.
  - cbn [timer_id]. apply Pos.lt_succ_diag_r.
Qed.

Lemma settle_only_cancel h q held : settle_only q held -> settle_only (cancel h q) held.
Proof. intros Hs tm Hin. apply in_cancel in Hin. apply Hs, Hin. Qed.

Lemma no_settle_cancel h q : no_settle q -> no_settle (cancel h q).
Proof. intros Hs tm Hin. apply in_cancel in Hin. apply Hs, Hin. Qed.

Lemma settle_only_held_cancel h q : settle_only q (Some h) -> no_settle (cancel h q).
Proof.
  intros Hs tm Hin Hcb. apply in_cancel in Hin. destruct Hin as [Hin Hne].
  destruct (Hs tm Hin Hcb) as [E _]. congruence.
Qed.

Lemma settle_only_none q : settle_only q None -> no_settle q.
Proof. intros Hs tm Hin Hcb. destruct (Hs tm Hin Hcb). discriminate. Qed.

Lemma no_settle_settle_only q held : no_settle q -> settle_only q held.
Proof. intros Hn tm Hin Hcb. destruct (Hn tm Hin Hcb). Qed.

(** After its cleanup, the second effect has no timer pending. *)
Lemma settle_only_cleanup q held :
  settle_only q held ->
  no_settle (match held with Some h => cancel h q | None => q end).
Proof.
  destruct held as [h |]; [apply settle_only_held_cancel | apply settle_only_none].
Qed.

Lemma no_settle_show now d q :
  no_settle q -> no_settle (snd (schedule now d ShowSelector q)).
Proof.
  intros Hn tm Hin. apply in_schedule in Hin. destruct Hin as [Hin | ->].
  - apply Hn, Hin.
  - discriminate.
Qed.

Lemma settle_only_schedule now q :
  no_settle q ->
  settle_only (snd (schedule now 1000 ClearChanging q)) (Some (next_handle q)).
Proof.
  intros Hn tm Hin Hcb. apply in_schedule in Hin. destruct Hin as [Hin | ->].
  - destruct (Hn tm Hin Hcb).
  - split; reflexivity.
Qed.

(** The second effect establishes the invariant from a queue that holds
    none of its timers. *)
Lemma inv_sync_effect dp (s : Sys) :
  fresh (timers (env s)) ->
  no_settle (timers (env s)) ->
  inv (exec (set_deps (Some dp)) (exec sync_effect s)).
Proof.
  intros Hf Hn. rewrite set_deps_unfold, sync_effect_unfold. cbv zeta.
  unfold inv, two_codes. ls_proj.
  split; [| split; [| split]].
  - exact (fresh_schedule (clock (env s)) 1000 ClearChanging _ Hf).
  - exact (settle_only_schedule (clock (env s)) _ Hn).
  - discriminate.
  - apply lang_code_two.
Qed.

Lemma selector_inv_mount l now h0 storage : inv (mount l now h0 storage).
Proof.
  unfold inv, mount, two_codes. ls_proj.
  split; [| split; [| split]].
  - intros tm [].
  - intros tm [].
  - reflexivity.
  - apply lang_code_two.
Qed.

Lemma inv_cancel h (s : Sys) :
  inv s -> inv (mkSys (st s) (hk s) (set_timers (cancel h (timers (env s))) (env s))).
Proof.
  intros (Hf & Hs & Hd & Hc). unfold inv, two_codes. ls_proj.
  split; [apply fresh_cancel, Hf
         | split; [apply settle_only_cancel, Hs | split; assumption]].
Qed.

Lemma inv_initial_cleanup (s : Sys) : inv s -> inv (exec initial_cleanup s).
Proof.
  intros Hinv. rewrite initial_cleanup_unfold.
  destruct (initialTimer (hk s)); [apply inv_cancel |]; exact Hinv.
Qed.

Lemma inv_sync_cleanup (s : Sys) : inv s -> inv (exec sync_cleanup s).
Proof.
  intros Hinv. rewrite sync_cleanup_unfold.
  destruct (timer (hk s)); [apply inv_cancel |]; exact Hinv.
Qed.

Lemma inv_set_mounted v (s : Sys) : inv s -> inv (exec (set_mounted v) s).
Proof. intros Hinv. exact Hinv. Qed.

Lemma selector_inv_step d a (s : Sys) : inv s -> inv (exec (step d a) s).
Proof.
  intros Hinv. pose proof Hinv as (Hf & Hs & Hd & Hc).
  destruct a; cbn [step].
  - (* Click *)
    rewrite exec_bind. unfold gets at 1. cbn [fst]. unfold gets, exec at 2. cbn [snd].
    destruct (mounted (hk s)); [| exact Hinv].
    rewrite toggleLanguage_unfold.
    destruct (_ || _); [exact Hinv |].
    cbv zeta. unfold inv, two_codes. ls_proj.
    split; [exact Hf | split; [exact Hs | split; [exact Hd |]]].
    destruct (String.eqb (currentLang (st s)) "en"); [right | left]; reflexivity.
  - (* Commit *)
    rewrite selector_commit_unfold.
    destruct (mounted (hk s)); [| exact Hinv].
    cbv zeta. destruct (deps (hk s)) as [d' |] eqn:Ed.
    + destruct (bool_decide _); [exact Hinv |].
      apply inv_sync_effect; rewrite sync_cleanup_unfold.
      * destruct (timer (hk s)); ls_proj; [apply fresh_cancel |]; exact Hf.
      * pose proof (settle_only_cleanup _ _ Hs) as Hn.
        destruct (timer (hk s)); ls_proj; exact Hn.
    + apply inv_sync_effect; rewrite initial_effect_unfold; cbv zeta; ls_proj.
      * apply fresh_schedule, Hf.
      * apply no_settle_show, settle_only_none. rewrite <- (Hd eq_refl). exact Hs.
  - (* Fire *)
    rewrite selector_fire_unfold.
    destruct (find_timer h (timers (env s))) as [tm |]; [| exact Hinv].
    destruct (due (clock (env s)) tm); [| exact Hinv].
    cbv zeta.
    destruct (timer_cb tm); unfold inv, two_codes; ls_proj;
      (split; [apply fresh_cancel, Hf
              | split; [apply settle_only_cancel, Hs | split; assumption]]).
  - (* Tick *)
    exact Hinv.
  - (* SetLanguage *)
    exact Hinv.
  - (* Unmount *)
    rewrite selector_unmount_unfold.
    destruct (mounted (hk s)); [| exact Hinv].
    apply inv_set_mounted, inv_sync_cleanup, inv_initial_cleanup, Hinv.
Qed.

Lemma selector_reachable_inv d (s : Sys) : reachable d s -> inv s.
Proof.
  induction 1 as [l now h0 storage | a s _ IH].
  - apply selector_inv_mount.
  - apply selector_inv_step, IH.
Qed.

(** ** The settle timer *)

Lemma commit_keeps_changing d (s : Sys) :
  isChangingLanguage (st (exec (commit d) s)) = isChangingLanguage (st s).
Proof.
  rewrite selector_commit_unfold.
  destruct (mounted (hk s)); [| reflexivity].
  cbv zeta. destruct (deps (hk s)) as [d' |].
  - destruct (bool_decide _); [reflexivity |].
    rewrite set_deps_unfold, sync_effect_unfold, sync_cleanup_unfold. cbv zeta. ls_proj.
    destruct (timer (hk s)); reflexivity.
  - rewrite set_deps_unfold, sync_effect_unfold. reflexivity.
Qed.

(** A committed render whose dependency array changed runs the second
    effect: one timer of 1000 ms is queued to clear [isChangingLanguage],
    it is the only such timer, and the language is written to storage. *)
Lemma commit_runs_sync_effect d (s : Sys) :
  inv s ->
  deps_changed s ->
  let s1 := exec (step d Commit) s in
  let h := next_handle (timers (env s)) in
  let settle := mkTimer h (clock (env s)) 1000 ClearChanging in
  timer (hk s1) = Some h /\
  find_timer h (timers (env s1)) = Some settle /\
  (forall tm, In tm (pending (timers (env s1))) -> timer_cb tm = ClearChanging ->
     tm = settle) /\
  localStorage (env s1) !! "i18nextLng" = Some (js_string (i18n_language (env s))).
Proof.
  intros (Hf & Hs & _ & _) (Hm & dp & Hdp & Hne). cbv zeta. cbn [step].
  rewrite selector_commit_unfold, Hm, Hdp. cbv zeta.
  rewrite (bool_decide_eq_false_2 _ Hne).
  rewrite set_deps_unfold, sync_effect_unfold. cbv zeta. ls_proj.
  set (s0 := exec sync_cleanup s).
  assert (Hq : next_handle (timers (env s0)) = next_handle (timers (env s))
               /\ clock (env s0) = clock (env s)
               /\ i18n_language (env s0) = i18n_language (env s)
               /\ fresh (timers (env s0)) /\ no_settle (timers (env s0))).
  { subst s0. rewrite sync_cleanup_unfold.
    pose proof (settle_only_cleanup _ _ Hs) as Hn.
    destruct (timer (hk s)); ls_proj;
      (split; [reflexivity | split; [reflexivity | split; [reflexivity | split]]]);
      try exact Hn; try exact Hf.
    apply fresh_cancel, Hf. }
  destruct Hq as (Hnh & Hclk & Hlang & Hf0 & Hn0).
  rewrite Hnh, Hclk, Hlang.
  split; [reflexivity |]. split; [| split].
  - rewrite <- Hnh.
    exact (find_timer_scheduled (clock (env s)) 1000 ClearChanging _ Hf0).
  - cbn [pending]. intros tm Hin Hcb. apply in_app_iff in Hin.
    destruct Hin as [Hin | [<- | []]]; [destruct (Hn0 tm Hin Hcb) | reflexivity].
  - apply lookup_insert_eq.
Qed.

(** A pending [ClearChanging] timer was given 1000 ms; before they have
    elapsed it cannot fire, and once they have, firing it clears
    [isChangingLanguage]. *)
Lemma settle_timer_fires d (s : Sys) h tm :
  inv s ->
  find_timer h (timers (env s)) = Some tm ->
  timer_cb tm = ClearChanging ->
  timer_delay tm = 1000%Q /\
  (clock (env s) < timer_set tm + 1000 -> exec (step d (Fire h)) s = s) /\
  (timer_set tm + 1000 <= clock (env s) ->
   isChangingLanguage (st (exec (step d (Fire h)) s)) = false).
Proof.
  intros (_ & Hs & _ & _) Hfind Hcb.
  destruct (find_timer_some _ _ _ Hfind) as [Hin _].
  destruct (Hs tm Hin Hcb) as [_ Hdelay].
  pose proof (due_whole (clock (env s)) tm 1000 Hdelay) as Hdue.
  split; [exact Hdelay |]. cbn [step]. rewrite selector_fire_unfold, Hfind.
  split; intros Hclk.
  - destruct (due (clock (env s)) tm); [| reflexivity].
    exfalso. apply (Z.lt_irrefl (clock (env s))).
    eapply Z.lt_le_trans; [exact Hclk | apply Hdue; reflexivity].
  - rewrite (proj2 Hdue Hclk), Hcb. reflexivity.
Qed.

(** Nothing but a due [ClearChanging] timer clears [isChangingLanguage]. *)
Lemma cleared_only_by_settle_timer d (s : Sys) a :
  inv s ->
  isChangingLanguage (st s) = true ->
  isChangingLanguage (st (exec (step d a) s)) = false ->
  exists h tm,
    a = Fire h /\ find_timer h (timers (env s)) = Some tm /\
    timer_cb tm = ClearChanging /\ timer_set tm + 1000 <= clock (env s).
Proof.
  intros Hinv Hon Hoff. destruct a; cbn [step] in Hoff.
  - exfalso. revert Hoff.
    rewrite exec_bind. unfold gets at 1. cbn [fst]. unfold gets, exec at 2. cbn [snd].
    destruct (mounted (hk s)); [| unfold exec, ret; cbn [snd]; congruence].
    rewrite toggleLanguage_unfold.
    destruct (_ || _); cbv zeta; ls_proj; congruence.
  - rewrite commit_keeps_changing in Hoff. congruence.
  - rewrite selector_fire_unfold in Hoff.
    destruct (find_timer h (timers (env s))) as [tm |] eqn:Hfind; [| congruence].
    destruct (due (clock (env s)) tm) eqn:Hdue; [| congruence].
    destruct (timer_cb tm) eqn:Hcb;
      [cbv zeta in Hoff; cbn [st isChangingLanguage] in Hoff; congruence |].
    exists h, tm. repeat split; try assumption.
    destruct (settle_timer_fires d s h tm Hinv Hfind Hcb) as (Hdelay & _).
    apply (due_whole (clock (env s)) tm 1000 Hdelay). exact Hdue.
  - exfalso. unfold exec, on_env, modify in Hoff. cbn [snd st] in Hoff. congruence.
  - exfalso. unfold exec, on_env, modify in Hoff. cbn [snd st] in Hoff. congruence.
  - exfalso. revert Hoff. rewrite selector_unmount_unfold.
    destruct (mounted (hk s)); [| congruence].
    change (st (exec (set_mounted false) ?x)) with (st x).
    rewrite st_sync_cleanup, st_initial_cleanup. congruence.
Qed.

Lemma selector_reachable_run d acts (s : Sys) : reachable d s -> reachable d (run d acts s).
Proof.
  revert s. induction acts as [| a rest IH]; intros s Hr; cbn [run].
  - exact Hr.
  - apply IH, reach_step, Hr.
Qed.

(** A change of the i18n language changes the dependency array, and so
    does a change of [currentLang]. *)
Lemma locale_change_changes_deps d (s : Sys) l cur :
  mounted (hk s) = true ->
  deps (hk s) = Some (i18n_language (env s), cur) ->
  l <> i18n_language (env s) ->
  deps_changed (exec (step d (SetLanguage l)) s).
Proof.
  intros Hm Hd Hl. split; [exact Hm |].
  exists (i18n_language (env s), cur). split; [exact Hd |].
  cbn. intros E. apply Hl. congruence.
Qed.

Lemma own_change_changes_deps (s : Sys) cur :
  mounted (hk s) = true ->
  deps (hk s) = Some (i18n_language (env s), cur) ->
  cur <> currentLang (st s) ->
  deps_changed s.
Proof.
  intros Hm Hd Hc. split; [exact Hm |].
  exists (i18n_language (env s), cur). split; [exact Hd |].
  intros E. apply Hc. congruence.
Qed.

(** C7, as the code has it.  The second effect depends on
    [[i18n.language, currentLang]].  In every reachable state:
    - a change of the i18n language changes this array, and so does a
      change of [currentLang];
    - a committed render that finds the array changed queues one timer of
      1000 ms that clears [isChangingLanguage], the only such timer
      pending, and writes [i18n.language] to [localStorage] under
      ["i18nextLng"];
    - such a timer cannot fire before its 1000 ms have elapsed, and
      clears [isChangingLanguage] when it fires;
    - no other step clears [isChangingLanguage]. *)
Theorem settle_timer_clears_changing d (s : Sys) :
  reachable d s ->
  (forall l cur,
     mounted (hk s) = true ->
     deps (hk s) = Some (i18n_language (env s), cur) ->
     l <> i18n_language (env s) ->
     deps_changed (exec (step d (SetLanguage l)) s)) /\
  (forall cur,
     mounted (hk s) = true ->
     deps (hk s) = Some (i18n_language (env s), cur) ->
     cur <> currentLang (st s) ->
     deps_changed s) /\
  (deps_changed s ->
   let s1 := exec (step d Commit) s in
   let h := next_handle (timers (env s)) in
   let settle := mkTimer h (clock (env s)) 1000 ClearChanging in
   timer (hk s1) = Some h /\
   find_timer h (timers (env s1)) = Some settle /\
   (forall tm, In tm (pending (timers (env s1))) -> timer_cb tm = ClearChanging ->
      tm = settle) /\
   localStorage (env s1) !! "i18nextLng" = Some (js_string (i18n_language (env s)))) /\
  (forall h tm,
     find_timer h (timers (env s)) = Some tm ->
     timer_cb tm = ClearChanging ->
     timer_delay tm = 1000%Q /\
     (clock (env s) < timer_set tm + 1000 -> exec (step d (Fire h)) s = s) /\
     (timer_set tm + 1000 <= clock (env s) ->
      isChangingLanguage (st (exec (step d (Fire h)) s)) = false)) /\
  (forall a,
     isChangingLanguage (st s) = true ->
     isChangingLanguage (st (exec (step d a) s)) = false ->
     exists h tm,
       a = Fire h /\ find_timer h (timers (env s)) = Some tm /\
       timer_cb tm = ClearChanging /\ timer_set tm + 1000 <= clock (env s)).
Proof.
  intros Hr. pose proof (selector_reachable_inv d s Hr) as Hinv.
  split; [| split; [| split; [| split]]].
  - intros l cur Hm Hd Hl. apply (locale_change_changes_deps d s l cur Hm Hd Hl).
  - intros cur Hm Hd Hc. apply (own_change_changes_deps s cur Hm Hd Hc).
  - apply commit_runs_sync_effect, Hinv.
  - intros h tm. apply settle_timer_fires, Hinv.
  - intros a. apply cleared_only_by_settle_timer, Hinv.
Qed.

Lemma settle_timer_clears_changing_witness :
  reachable 1300 just_clicked /\
  deps_changed just_clicked /\
  i18n_language (env just_clicked) = Some "en" /\
  find_timer 3 (timers (env (exec (step 1300 Commit) just_clicked)))
    = Some (mkTimer 3 start_time 1000 ClearChanging).
Proof.
  assert (Hr : reachable 1300 just_clicked)
    by (unfold just_clicked, idle_en; repeat apply selector_reachable_run; apply reach_mount).
  assert (Hd : deps_changed just_clicked).
  { split; [vm_compute; reflexivity |].
    exists (Some "en", "en"). split; [vm_compute; reflexivity |].
    vm_compute. discriminate. }
  split; [exact Hr |]. split; [exact Hd |]. split; [vm_compute; reflexivity |].
  destruct (settle_timer_clears_changing 1300 just_clicked Hr)
    as (_ & _ & Hcommit & _ & _).
  destruct (Hcommit Hd) as (_ & Hfind & _).
  exact Hfind.
Defined.

(** C7, as the specification words it, fails: after one click to which
    i18n does not react, the renders caused by [setCurrentLang] run the
    second effect, and its timer clears [isChangingLanguage] although the
    i18n language never changed. *)
Lemma cleared_without_locale_change :
  let s := run 1300 click_without_listener (mount (Some "en") start_time 1 ∅) in
  isChangingLanguage (st s) = true /\
  isChangingLanguage (st (exec (step 1300 (Fire 4)) s)) = false /\
  i18n_language (env s) = Some "en" /\
  ~ cleared_only_on_locale_change 1300.
Proof.
  cbv zeta.
  assert (Hon : isChangingLanguage
                  (st (run 1300 click_without_listener (mount (Some "en") start_time 1 ∅)))
                = true) by (vm_compute; reflexivity).
  assert (Hoff : isChangingLanguage
                   (st (exec (step 1300 (Fire 4))
                          (run 1300 click_without_listener
                             (mount (Some "en") start_time 1 ∅))))
                 = false) by (vm_compute; reflexivity).
  split; [exact Hon |]. split; [exact Hoff |]. split; [vm_compute; reflexivity |].
  intros Hclaim.
  destruct (Hclaim (Some "en") start_time 1%positive ∅ click_without_listener (Fire 4)
              Hon Hoff) as [l' Hin].
  unfold click_without_listener in Hin. cbn [In] in Hin.
  repeat (destruct Hin as [Hin | Hin]; [discriminate Hin |]).
  exact Hin.
Qed.

(** ** Beyond the claims: the language code *)

Lemma prefix_es (x : string) :
  String.prefix "es" x = true <-> exists rest, x = "es" ++ rest.
Proof.
  destruct x as [| a [| b rest]]; cbn [String.prefix].
  - split; [discriminate | intros [rest E]; discriminate E].
  - destruct (Ascii.ascii_dec _ a);
      (split; [discriminate | intros [rest E]; discriminate E]).
  - destruct (Ascii.ascii_dec _ a) as [<- | Ha].
    + destruct (Ascii.ascii_dec _ b) as [<- | Hb].
      * split; [intros _; exists rest; reflexivity |].
        intros _. destruct rest; reflexivity.
      * split; [discriminate |].
        intros [rest' E]. cbn in E. injection E as E1 E2. congruence.
    + split; [discriminate |].
      intros [rest' E]. cbn in E. injection E as E1 E2. congruence.
Qed.

(** X5.  The displayed code is ["es"] exactly for the locales that begin
    with ["es"] (["es"], ["es-MX"], ...), and ["en"] for every other
    locale and for an undefined one; the result is a code the function
    maps to itself. *)
Theorem lang_code_spanish_prefix (l : option string) :
  (lang_code l = "es" <-> exists rest, l = Some ("es" ++ rest)) /\
  (lang_code l <> "es" -> lang_code l = "en") /\
  lang_code (Some (lang_code l)) = lang_code l.
Proof.
  split; [| split].
  - destruct l as [x |]; cbn [lang_code].
    + destruct (String.prefix "es" x) eqn:E.
      * apply prefix_es in E. destruct E as [rest ->].
        split; [intros _; exists rest; reflexivity | reflexivity].
      * split; [discriminate |]. intros [rest H]. injection H as ->.
        assert (Hp : String.prefix "es" ("es" ++ rest) = true)
          by (apply prefix_es; exists rest; reflexivity).
        congruence.
    + split; [discriminate | intros [rest H]; discriminate H].
  - destruct (lang_code_two l) as [E | E]; [intros _; exact E | intros H; contradiction].
  - destruct (lang_code_two l) as [-> | ->]; reflexivity.
Qed.

(** ** Beyond the claims: the button and the handler *)

(** X8.  The button the render function draws agrees with the handler
    behind it.  A disabled button is one whose click would be rejected.
    For a click that is accepted, the [aria-label] announces Spanish
    exactly when the button reads ["ES"] afterwards, and English exactly
    when it reads ["EN"]; the button then is disabled. *)
Theorem button_agrees_with_toggle (s : Sys) :
  (button_disabled (render (st s)) = true -> rejected s) /\
  (accepted s ->
   let v := render (st s) in
   let v' := render (st (exec toggleLanguage s)) in
   (aria_label v = "Cambiar a Español" <-> button_text v' = "ES") /\
   (aria_label v = "Cambiar a Inglés" <-> button_text v' = "EN") /\
   button_text v' <> button_text v /\
   button_disabled v' = true /\
   container_visible v' = container_visible v).
Proof.
  split.
  - cbn. intros H. left. exact H.
  - intros Hacc. cbv zeta.
    rewrite toggleLanguage_unfold, (accepted_guard s Hacc). cbv zeta.
    cbn [st render currentLang isChangingLanguage isVisible aria_label button_text
         button_disabled container_visible].
    destruct (String.eqb (currentLang (st s)) "en"); cbn;
      repeat split; intros; try reflexivity; try discriminate.
Qed.

Lemma button_agrees_with_toggle_witness :
  accepted idle_en /\
  aria_label (render (st idle_en)) = "Cambiar a Español" /\
  button_text (render (st (exec toggleLanguage idle_en))) = "ES".
Proof.
  assert (Ha : accepted idle_en) by (split; vm_compute; [reflexivity | discriminate]).
  split; [exact Ha |].
  destruct (button_agrees_with_toggle idle_en) as (_ & H).
  destruct (H Ha) as (Hes & _).
  assert (Haria : aria_label (render (st idle_en)) = "Cambiar a Español")
    by (vm_compute; reflexivity).
  split; [exact Haria | apply Hes, Haria].
Defined.

(** ** Beyond the claims: what a step leaves alone *)

(** A committed render touches neither the clock, the i18n language,
    the events nor the console, and of the state only [currentLang]. *)
Lemma commit_frame d (s : Sys) :
  let s' := exec (commit d) s in
  clock (env s') = clock (env s) /\
  i18n_language (env s') = i18n_language (env s) /\
  dispatched (env s') = dispatched (env s) /\
  console (env s') = console (env s) /\
  isChangingLanguage (st s') = isChangingLanguage (st s) /\
  lastChangeTime (st s') = lastChangeTime (st s) /\
  isVisible (st s') = isVisible (st s) /\
  mounted (hk s') = mounted (hk s).
Proof.
  cbv zeta. rewrite selector_commit_unfold.
  destruct (mounted (hk s)) eqn:Hm; [| rewrite Hm; repeat split].
  cbv zeta. destruct (deps (hk s)) as [d' |].
  - destruct (bool_decide _); [rewrite Hm; repeat split |].
    rewrite set_deps_unfold, sync_effect_unfold, sync_cleanup_unfold. cbv zeta. ls_proj.
    destruct (timer (hk s)); ls_proj; rewrite Hm; repeat split.
  - rewrite set_deps_unfold, sync_effect_unfold, initial_effect_unfold. cbv zeta. ls_proj.
    rewrite Hm. repeat split.
Qed.

(** A timer that fires touches the queue and one state cell. *)
Lemma fire_frame (h : positive) (s : Sys) :
  let s' := exec (fire h) s in
  hk s' = hk s /\
  clock (env s') = clock (env s) /\
  i18n_language (env s') = i18n_language (env s) /\
  localStorage (env s') = localStorage (env s) /\
  dispatched (env s') = dispatched (env s) /\
  console (env s') = console (env s) /\
  currentLang (st s') = currentLang (st s) /\
  lastChangeTime (st s') = lastChangeTime (st s).
Proof.
  cbv zeta. rewrite selector_fire_unfold.
  destruct (find_timer h (timers (env s))) as [tm |]; [| repeat split].
  destruct (due (clock (env s)) tm); [| repeat split].
  cbv zeta. destruct (timer_cb tm); repeat split.
Qed.

(** An unmount touches the queue and the [mounted] flag. *)
Lemma unmount_frame (s : Sys) :
  let s' := exec unmount s in
  st s' = st s /\
  clock (env s') = clock (env s) /\
  i18n_language (env s') = i18n_language (env s) /\
  localStorage (env s') = localStorage (env s) /\
  dispatched (env s') = dispatched (env s) /\
  console (env s') = console (env s) /\
  deps (hk s') = deps (hk s).
Proof.
  cbv zeta. rewrite selector_unmount_unfold.
  destruct (mounted (hk s)); [| repeat split].
  change (exec (set_mounted false) ?x)
    with (mkSys (st x) (mkHooks (initialTimer (hk x)) (timer (hk x)) (deps (hk x)) false)
                (env x)).
  ls_proj. rewrite sync_cleanup_unfold, initial_cleanup_unfold.
  destruct (initialTimer (hk s)); ls_proj; destruct (timer (hk s)); repeat split.
Qed.

(** A click, by cases. *)
Lemma click_unfold d (s : Sys) :
  exec (step d Click) s = if mounted (hk s) then exec toggleLanguage s else s.
Proof.
  cbn [step]. rewrite exec_bind. unfold gets at 1. cbn [fst].
  unfold gets, exec at 2. cbn [snd].
  destruct (mounted (hk s)); reflexivity.
Qed.


(** ** Beyond the claims: the cooldown *)





(** ** Beyond the claims: the events *)

(** X2.  Every event a reachable instance has dispatched is an
    ["initiateLanguageChange"] event whose two languages are the two
    codes ["en"] and ["es"], one each. *)
Theorem dispatched_events_well_formed d (s : Sys) :
  reachable d s -> Forall well_formed_event (dispatched (env s)).
Proof.
  induction 1 as [l now h0 storage | a s Hr IH].
  - constructor.
  - destruct a.
    + rewrite click_unfold. destruct (mounted (hk s)); [| exact IH].
      rewrite toggleLanguage_unfold. destruct (_ || _); [exact IH |].
      cbv zeta. ls_proj. apply Forall_app. split; [exact IH |].
      constructor; [| constructor].
      destruct (selector_reachable_inv d s Hr) as (_ & _ & _ & [E | E]);
        rewrite E; cbn; repeat split; auto; discriminate.
    + cbn [step]. destruct (commit_frame d s) as (_ & _ & E & _). rewrite E. exact IH.
    + cbn [step]. destruct (fire_frame h s) as (_ & _ & _ & _ & E & _).
      rewrite E. exact IH.
    + exact IH.
    + exact IH.
    + cbn [step]. destruct (unmount_frame s) as (_ & _ & _ & _ & E & _).
      rewrite E. exact IH.
Qed.

Lemma dispatched_events_well_formed_witness :
  reachable 1300 (exec (step 1300 Click) idle_en) /\
  Forall well_formed_event [mkEvent "initiateLanguageChange" "en" "es"].
Proof.
  assert (Hr : reachable 1300 (exec (step 1300 Click) idle_en))
    by (apply reach_step; unfold idle_en; apply selector_reachable_run, reach_mount).
  split; [exact Hr |].
  exact (dispatched_events_well_formed 1300 _ Hr).
Defined.

(** ** Beyond the claims: the first effect *)

Lemma inv_initial_mount d l now h0 storage : inv_initial d (mount l now h0 storage).
Proof.
  unfold inv_initial, mount. ls_proj. cbn [pending].
  split; [intros tm [] |]. split; [reflexivity |]. split; [reflexivity |].
  split; [discriminate |]. intros _ H. destruct (H eq_refl).
Qed.

(** The queue after the cleanup of the second effect. *)
Lemma sync_cleanup_queue (s : Sys) :
  hk (exec sync_cleanup s) = hk s /\
  next_handle (timers (env (exec sync_cleanup s))) = next_handle (timers (env s)) /\
  (forall tm, In tm (pending (timers (env (exec sync_cleanup s)))) <->
     In tm (pending (timers (env s))) /\ timer (hk s) <> Some (timer_id tm)).
Proof.
  rewrite sync_cleanup_unfold. destruct (timer (hk s)) as [h |]; ls_proj.
  - split; [reflexivity |]. split; [reflexivity |].
    intros tm. rewrite in_cancel. split; intros [Hin Hne]; split; try exact Hin; congruence.
  - split; [reflexivity |]. split; [reflexivity |].
    intros tm. split; [intros Hin; split; [exact Hin | discriminate] | intros [Hin _]; exact Hin].
Qed.

Lemma inv_initial_commit d (s : Sys) :
  inv s -> inv_initial d s -> inv_initial d (exec (commit d) s).
Proof.
  intros (Hf & Hs & _ & _) Hi. pose proof Hi as (Hshow & Hnone & Hun & Hold & Hlive).
  rewrite selector_commit_unfold.
  destruct (mounted (hk s)) eqn:Hm; [| exact Hi].
  cbv zeta. destruct (deps (hk s)) as [d' |] eqn:Hd.
  - destruct (bool_decide _); [exact Hi |].
    destruct (sync_cleanup_queue s) as (Ehk & Enh & Hin).
    rewrite set_deps_unfold, sync_effect_unfold. cbv zeta.
    unfold inv_initial. ls_proj. cbn [pending next_handle].
    rewrite Ehk, Enh, Hm.
    split; [| split; [| split; [| split]]].
    + intros tm Ht Hcb. apply in_app_iff in Ht. destruct Ht as [Ht | [<- | []]].
      * apply Hin in Ht. apply Hshow; [apply Ht | exact Hcb].
      * discriminate Hcb.
    + discriminate.
    + discriminate.
    + intros hi Ehi. destruct (Hold hi Ehi) as [Hlt _].
      split; [apply Pos.lt_lt_succ, Hlt |].
      intros ht Eht. injection Eht as <-. exact Hlt.
    + intros _ _ Hvis. rewrite st_sync_cleanup in Hvis.
      destruct (Hlive eq_refl ltac:(discriminate) Hvis) as (tm & Ht & Hcb).
      exists tm. split; [| exact Hcb].
      apply in_app_iff. left. apply Hin. split; [exact Ht |].
      intros Eheld. destruct (Hshow tm Ht Hcb) as [Ehi _].
      destruct (Hold _ Ehi) as [_ Hlt]. specialize (Hlt _ Eheld).
      exact (Pos.lt_irrefl _ Hlt).
  - rewrite set_deps_unfold, sync_effect_unfold, initial_effect_unfold. cbv zeta.
    unfold inv_initial, schedule. ls_proj. cbn [pending next_handle snd].
    rewrite Hm.
    assert (Hnoshow : forall tm, In tm (pending (timers (env s))) ->
                                 timer_cb tm <> ShowSelector).
    { intros tm Ht Hcb. destruct (Hshow tm Ht Hcb) as [E _].
      rewrite (Hnone eq_refl) in E. discriminate E. }
    split; [| split; [| split; [| split]]].
    + intros tm Ht Hcb. apply in_app_iff in Ht. destruct Ht as [Ht | [<- | []]].
      * apply in_app_iff in Ht. destruct Ht as [Ht | [<- | []]].
        -- destruct (Hnoshow tm Ht Hcb).
        -- split; reflexivity.
      * discriminate Hcb.
    + discriminate.
    + discriminate.
    + intros hi Ehi. injection Ehi as <-.
      split; [apply Pos.lt_lt_succ, Pos.lt_succ_diag_r |].
      intros ht Eht. injection Eht as <-. apply Pos.lt_succ_diag_r.
    + intros _ _ _.
      exists (mkTimer (next_handle (timers (env s))) (clock (env s)) d ShowSelector).
      split; [| reflexivity].
      apply in_app_iff. left. apply in_app_iff. right. left. reflexivity.
Qed.

Lemma inv_initial_fire d h (s : Sys) :
  inv s -> inv_initial d s -> inv_initial d (exec (fire h) s).
Proof.
  intros (Hf & Hs & _ & _) Hi. pose proof Hi as (Hshow & Hnone & Hun & Hold & Hlive).
  rewrite selector_fire_unfold.
  destruct (find_timer h (timers (env s))) as [tm |] eqn:Hfind; [| exact Hi].
  destruct (due (clock (env s)) tm); [| exact Hi].
  destruct (find_timer_some _ _ _ Hfind) as [Htm Hid].
  cbv zeta.
  assert (Hcore : show_only d (cancel h (timers (env s))) (initialTimer (hk s)) /\
                  (mounted (hk s) = false -> pending (cancel h (timers (env s))) = [])).
  { split.
    - intros tm' Ht Hcb. apply in_cancel in Ht. apply Hshow; [apply Ht | exact Hcb].
    - intros Hm. unfold cancel. rewrite (Hun Hm). reflexivity. }
  destruct Hcore as [Hshow' Hun'].
  destruct (timer_cb tm) eqn:Hcb; unfold inv_initial; ls_proj;
    (split; [exact Hshow' | split; [exact Hnone | split; [exact Hun' | split; [exact Hold |]]]]).
  - discriminate.
  - intros Hm Hd Hvis. destruct (Hlive Hm Hd Hvis) as (tm' & Ht & Hcb').
    exists tm'. split; [| exact Hcb']. apply in_cancel. split; [exact Ht |].
    intros E. destruct (Hshow tm' Ht Hcb') as [Ehi _].
    destruct (Hs tm Htm Hcb) as [Eheld _].
    destruct (Hold _ Ehi) as [_ Hlt]. specialize (Hlt _ Eheld).
    rewrite E, Hid in Hlt. exact (Pos.lt_irrefl _ Hlt).
Qed.

(** The queue after an unmount holds no timer the two cleanups held. *)
Lemma unmount_queue (s : Sys) :
  mounted (hk s) = true ->
  hk (exec unmount s)
    = mkHooks (initialTimer (hk s)) (timer (hk s)) (deps (hk s)) false /\
  (forall tm, In tm (pending (timers (env (exec unmount s)))) ->
     In tm (pending (timers (env s))) /\
     initialTimer (hk s) <> Some (timer_id tm) /\
     timer (hk s) <> Some (timer_id tm)).
Proof.
  intros Hm. rewrite selector_unmount_unfold, Hm.
  change (exec (set_mounted false) ?x)
    with (mkSys (st x) (mkHooks (initialTimer (hk x)) (timer (hk x)) (deps (hk x)) false)
                (env x)).
  ls_proj.
  destruct (sync_cleanup_queue (exec initial_cleanup s)) as (Ehk & _ & Hin).
  rewrite Ehk.
  assert (H0 : hk (exec initial_cleanup s) = hk s /\
               (forall tm, In tm (pending (timers (env (exec initial_cleanup s)))) ->
                  In tm (pending (timers (env s))) /\
                  initialTimer (hk s) <> Some (timer_id tm))).
  { rewrite initial_cleanup_unfold. destruct (initialTimer (hk s)) as [hi |]; ls_proj.
    - split; [reflexivity |]. intros tm Ht. apply in_cancel in Ht.
      split; [apply Ht | intros E; injection E as ->; destruct Ht as [_ Hne]; congruence].
    - split; [reflexivity |]. intros tm Ht. split; [exact Ht | discriminate]. }
  destruct H0 as [Ehk0 Hin0]. rewrite Ehk0 in *.
  split; [reflexivity |].
  intros tm Ht. apply Hin in Ht. destruct Ht as [Ht Hne].
  destruct (Hin0 tm Ht) as [Ht0 Hne0]. repeat split; assumption.
Qed.

Lemma unmount_empties_queue d (s : Sys) :
  inv s -> inv_initial d s -> pending (timers (env (exec unmount s))) = [].
Proof.
  intros (_ & Hs & _ & _) (Hshow & _ & Hun & _ & _).
  destruct (mounted (hk s)) eqn:Hm.
  - destruct (unmount_queue s Hm) as [_ Hin].
    destruct (pending (timers (env (exec unmount s)))) as [| tm rest]; [reflexivity |].
    exfalso. destruct (Hin tm (or_introl eq_refl)) as (Ht & Hni & Hnt).
    destruct (timer_cb tm) eqn:Hcb.
    + destruct (Hshow tm Ht Hcb) as [E _]. contradiction.
    + destruct (Hs tm Ht Hcb) as [E _]. contradiction.
  - rewrite selector_unmount_unfold, Hm. exact (Hun eq_refl).
Qed.

Lemma inv_initial_unmount d (s : Sys) :
  inv s -> inv_initial d s -> inv_initial d (exec unmount s).
Proof.
  intros Hinv Hi. pose proof (unmount_empties_queue d s Hinv Hi) as Hnil.
  pose proof Hi as (Hshow & Hnone & Hun & Hold & Hlive).
  destruct (mounted (hk s)) eqn:Hm;
    [| rewrite selector_unmount_unfold, Hm; exact Hi].
  destruct (unmount_queue s Hm) as [Ehk _].
  assert (Enh : next_handle (timers (env (exec unmount s))) = next_handle (timers (env s))).
  { rewrite selector_unmount_unfold, Hm.
    change (exec (set_mounted false) ?x)
      with (mkSys (st x) (mkHooks (initialTimer (hk x)) (timer (hk x)) (deps (hk x)) false)
                  (env x)).
    ls_proj. rewrite sync_cleanup_unfold, initial_cleanup_unfold.
    destruct (initialTimer (hk s)); ls_proj; destruct (timer (hk s)); reflexivity. }
  unfold inv_initial, show_only. rewrite Hnil, Ehk, Enh. ls_proj.
  split; [intros tm [] |]. split; [exact Hnone |]. split; [reflexivity |].
  split; [exact Hold | discriminate].
Qed.

Lemma inv_initial_step d a (s : Sys) :
  inv s -> inv_initial d s -> inv_initial d (exec (step d a) s).
Proof.
  intros Hinv Hi. destruct a.
  - rewrite click_unfold. destruct (mounted (hk s)) eqn:Hm; [| exact Hi].
    rewrite toggleLanguage_unfold. destruct (_ || _); [exact Hi |].
    destruct Hi as (H1 & H2 & H3 & H4 & H5). cbv zeta.
    unfold inv_initial. ls_proj.
    repeat (split; [assumption |]). exact H5.
  - apply inv_initial_commit; assumption.
  - apply inv_initial_fire; assumption.
  - exact Hi.
  - exact Hi.
  - apply inv_initial_unmount; assumption.
Qed.

Lemma reachable_inv_initial d (s : Sys) : reachable d s -> inv_initial d s.
Proof.
  induction 1 as [l now h0 storage | a s Hr IH].
  - apply inv_initial_mount.
  - apply inv_initial_step; [exact (selector_reachable_inv d s Hr) | exact IH].
Qed.





(** An unmounted instance without timers stays as it is. *)
Lemma selector_unmounted_is_frozen d acts (s : Sys) :
  mounted (hk s) = false ->
  pending (timers (env s)) = [] ->
  let s' := run d acts s in
  st s' = st s /\ hk s' = hk s /\
  dispatched (env s') = dispatched (env s) /\
  localStorage (env s') = localStorage (env s) /\
  console (env s') = console (env s) /\
  pending (timers (env s')) = [].
Proof.
  revert s. induction acts as [| a rest IH]; intros s Hm Hnil; cbv zeta; cbn [run].
  - repeat split; assumption.
  - assert (Hstep : let s1 := exec (step d a) s in
                    st s1 = st s /\ hk s1 = hk s /\
                    dispatched (env s1) = dispatched (env s) /\
                    localStorage (env s1) = localStorage (env s) /\
                    console (env s1) = console (env s) /\
                    pending (timers (env s1)) = []).
    { cbv zeta. destruct a.
      - rewrite click_unfold, Hm. repeat split; assumption.
      - cbn [step]. rewrite selector_commit_unfold, Hm. repeat split; assumption.
      - cbn [step]. rewrite selector_fire_unfold. unfold find_timer. rewrite Hnil.
        cbn [find]. repeat split; assumption.
      - repeat split; assumption.
      - repeat split; assumption.
      - cbn [step]. rewrite selector_unmount_unfold, Hm. repeat split; assumption. }
    cbv zeta in Hstep. destruct Hstep as (E1 & E2 & E3 & E4 & E5 & E6).
    assert (Hm' : mounted (hk (exec (step d a) s)) = false) by (rewrite E2; exact Hm).
    specialize (IH _ Hm' E6). cbv zeta in IH.
    destruct IH as (I1 & I2 & I3 & I4 & I5 & I6).
    rewrite I1, I2, I3, I4, I5, E1, E2, E3, E4, E5. repeat split; assumption.
Qed.

(** X4.  Unmounting the selector cancels both of its timers, the one
    that would show it and the one that would clear
    [isChangingLanguage]: the queue is empty right after the unmount,
    and whatever happens afterwards (clicks, renders, timers, language
    changes) the state, the events, the storage and the console stay as
    the unmount left them. *)
Theorem selector_unmount_cancels_timers d (s : Sys) acts :
  reachable d s ->
  let u := exec (step d Unmount) s in
  let s' := run d acts u in
  pending (timers (env u)) = [] /\
  st u = st s /\
  st s' = st u /\
  dispatched (env s') = dispatched (env u) /\
  localStorage (env s') = localStorage (env u) /\
  console (env s') = console (env u) /\
  pending (timers (env s')) = [].
Proof.
  intros Hr. cbv zeta. cbn [step].
  pose proof (selector_reachable_inv d s Hr) as Hinv.
  pose proof (reachable_inv_initial d s Hr) as Hi.
  pose proof (unmount_empties_queue d s Hinv Hi) as Hnil.
  assert (Hm : mounted (hk (exec unmount s)) = false).
  { destruct (mounted (hk s)) eqn:E.
    - destruct (unmount_queue s E) as [-> _]. reflexivity.
    - rewrite selector_unmount_unfold, E. exact E. }
  destruct (selector_unmounted_is_frozen d acts _ Hm Hnil) as (F1 & _ & F3 & F4 & F5 & F6).
  destruct (unmount_frame s) as (U1 & _).
  repeat (split; [assumption |]). exact F6.
Qed.

Lemma selector_unmount_cancels_timers_witness :
  reachable 1300 just_clicked /\
  length (pending (timers (env just_clicked))) = 2%nat /\
  pending (timers (env unmounted_mid_change)) = [] /\
  isChangingLanguage
    (st (run 1300 [Tick 5000; Fire 1; Fire 2; Click; Commit] unmounted_mid_change)) = true.
Proof.
  assert (Hr : reachable 1300 just_clicked)
    by (unfold just_clicked, idle_en; repeat apply selector_reachable_run; apply reach_mount).
  split; [exact Hr |]. split; [vm_compute; reflexivity |].
  destruct (selector_unmount_cancels_timers 1300 just_clicked
              [Tick 5000; Fire 1%positive; Fire 2%positive; Click; Commit] Hr)
    as (Hnil & Hst & Hlater & _).
  split; [exact Hnil |].
  unfold unmounted_mid_change. rewrite Hlater, Hst. vm_compute. reflexivity.
Defined.

(** ** Beyond the claims: the displayed language after a render *)

(** A committed render that runs the second effect shows the code of the
    language i18n has. *)
Lemma commit_sets_language d (s : Sys) :
  deps_changed s ->
  currentLang (st (exec (commit d) s)) = lang_code (i18n_language (env s)) /\
  deps (hk (exec (commit d) s)) = Some (i18n_language (env s), currentLang (st s)).
Proof.
  intros (Hm & dp & Hdp & Hne).
  rewrite selector_commit_unfold, Hm, Hdp. cbv zeta.
  rewrite (bool_decide_eq_false_2 _ Hne).
  rewrite set_deps_unfold, sync_effect_unfold, sync_cleanup_unfold. cbv zeta. ls_proj.
  destruct (timer (hk s)); split; reflexivity.
Qed.

(** X6.  The language the button shows after a click is an optimistic
    guess that the next committed render replaces by the code of the
    language i18n then has: after an accepted click in a settled state
    the render shows [lang_code] of i18n's language, whatever it is, and
    [isChangingLanguage] is still set.  In particular, when i18n has not
    changed its language by then, the button shows the old language
    again. *)
Theorem next_render_follows_i18n d (s : Sys) (l' : option string) :
  settled s ->
  accepted s ->
  let s' := run d [Click; SetLanguage l'; Commit] s in
  currentLang (st (exec (step d Click) s)) <> currentLang (st s) /\
  currentLang (st s') = lang_code l' /\
  isChangingLanguage (st s') = true /\
  (currentLang (st s) = lang_code (i18n_language (env s)) ->
   currentLang (st (run d [Click; Commit] s)) = currentLang (st s)).
Proof.
  intros [Hm Hd] Hacc. cbv zeta. cbn [run].
  pose proof (click_unfold d s) as Hclick.
  rewrite Hm, toggleLanguage_unfold, (accepted_guard s Hacc) in Hclick.
  cbv zeta in Hclick.
  set (s1 := exec (step d Click) s) in *.
  assert (H1 : currentLang (st s1) <> currentLang (st s) /\ hk s1 = hk s /\
               i18n_language (env s1) = i18n_language (env s) /\
               isChangingLanguage (st s1) = true).
  { rewrite Hclick. ls_proj. split; [| repeat split].
    destruct (String.eqb_spec (currentLang (st s)) "en") as [-> | Hne];
      [discriminate | congruence]. }
  destruct H1 as (Hflip & Ehk & Elang & Echg).
  assert (Hchanged : forall l, deps_changed (exec (step d (SetLanguage l)) s1)).
  { intros l. split.
    - change (mounted (hk s1) = true). rewrite Ehk. exact Hm.
    - exists (i18n_language (env s), currentLang (st s)). split.
      + change (deps (hk s1) = Some (i18n_language (env s), currentLang (st s))).
        rewrite Ehk. exact Hd.
      + change ((i18n_language (env s), currentLang (st s)) <> (l, currentLang (st s1))).
        intros E. apply Hflip. congruence. }
  split; [exact Hflip |]. split; [| split].
  - change (exec (step d Commit) ?x) with (exec (commit d) x).
    destruct (commit_sets_language d _ (Hchanged l')) as [E _].
    rewrite E. reflexivity.
  - change (exec (step d Commit) ?x) with (exec (commit d) x).
    destruct (commit_frame d (exec (step d (SetLanguage l')) s1))
      as (_ & _ & _ & _ & E & _).
    rewrite E. exact Echg.
  - intros Hsync.
    change (exec (step d Commit) ?x) with (exec (commit d) x).
    assert (Hc : deps_changed s1).
    { destruct (Hchanged (i18n_language (env s1))) as (Hm1 & dp & Hdp & Hne).
      split; [exact Hm1 |]. exists dp. split; [exact Hdp | exact Hne]. }
    destruct (commit_sets_language d s1 Hc) as [E _].
    rewrite E, Elang. symmetry. exact Hsync.
Qed.

Lemma next_render_follows_i18n_witness :
  settled idle_en /\ accepted idle_en /\
  currentLang (st idle_en) = "en" /\
  currentLang (st (exec (step 1300 Click) idle_en)) = "es" /\
  currentLang (st (run 1300 [Click; Commit] idle_en)) = "en" /\
  currentLang (st (run 1300 [Click; SetLanguage (Some "es-ES"); Commit] idle_en)) = "es".
Proof.
  assert (Hs : settled idle_en) by (split; vm_compute; reflexivity).
  assert (Ha : accepted idle_en) by (split; vm_compute; [reflexivity | discriminate]).
  assert (He : currentLang (st idle_en) = "en") by (vm_compute; reflexivity).
  split; [exact Hs |]. split; [exact Ha |]. split; [exact He |].
  split; [vm_compute; reflexivity |].
  split.
  - destruct (next_render_follows_i18n 1300 idle_en None Hs Ha) as (_ & _ & _ & Hback).
    rewrite Hback; [exact He | vm_compute; reflexivity].
  - destruct (next_render_follows_i18n 1300 idle_en (Some "es-ES") Hs Ha)
      as (_ & Hnew & _).
    rewrite Hnew. reflexivity.
Defined.

(** ** Beyond the claims: the storage *)

Lemma storage_sync_cleanup (s : Sys) :
  localStorage (env (exec sync_cleanup s)) = localStorage (env s).
Proof. rewrite sync_cleanup_unfold. destruct (timer (hk s)); reflexivity. Qed.

(** What a step keeps of the storage, [sigma] being the storage the
    instance was mounted with. *)
Lemma storage_step d a (s : Sys) (sigma : gmap string string) :
  (forall k, k <> "i18nextLng" -> localStorage (env s) !! k = sigma !! k) ->
  stored_language s ->
  (deps (hk s) = None -> localStorage (env s) = sigma) ->
  let s' := exec (step d a) s in
  (forall k, k <> "i18nextLng" -> localStorage (env s') !! k = sigma !! k) /\
  stored_language s' /\
  (deps (hk s') = None -> localStorage (env s') = sigma).
Proof.
  intros Hother Hkey Hfirst. cbv zeta.
  assert (Hrun : forall s0 : Sys,
            localStorage (env s0) = localStorage (env s) ->
            let s' := exec (set_deps (Some (i18n_language (env s), currentLang (st s))))
                        (exec sync_effect s0) in
            i18n_language (env s0) = i18n_language (env s) ->
            (forall k, k <> "i18nextLng" -> localStorage (env s') !! k = sigma !! k) /\
            stored_language s' /\
            (deps (hk s') = None -> localStorage (env s') = sigma)).
  { intros s0 E0. cbv zeta. intros El.
    rewrite set_deps_unfold, sync_effect_unfold. cbv zeta.
    unfold stored_language. ls_proj. rewrite E0, El.
    split; [| split].
    - intros k Hk. rewrite lookup_insert_ne; [apply Hother, Hk | congruence].
    - intros l cur E. injection E as <- _. apply lookup_insert_eq.
    - discriminate. }
  pose proof (conj Hother (conj Hkey Hfirst)) as Hsame.
  destruct a.
  - rewrite click_unfold. destruct (mounted (hk s)); [| exact Hsame].
    rewrite toggleLanguage_unfold. destruct (_ || _); exact Hsame.
  - cbn [step]. rewrite selector_commit_unfold.
    destruct (mounted (hk s)); [| exact Hsame].
    cbv zeta. destruct (deps (hk s)) as [d' |] eqn:Hd.
    + destruct (bool_decide _).
      { destruct Hsame as (A & B & _).
        split; [exact A | split; [exact B | intros E; rewrite Hd in E; discriminate E]]. }
      apply (Hrun (exec sync_cleanup s)); [apply storage_sync_cleanup |].
      rewrite sync_cleanup_unfold. destruct (timer (hk s)); reflexivity.
    + apply (Hrun (exec (initial_effect d) s)); reflexivity.
  - cbn [step]. destruct (fire_frame h s) as (Eh & _ & _ & Es & _).
    unfold stored_language. rewrite Eh, Es. exact Hsame.
  - exact Hsame.
  - exact Hsame.
  - cbn [step]. destruct (unmount_frame s) as (_ & _ & _ & Es & _ & _ & Ed).
    unfold stored_language. rewrite Es, Ed. exact Hsame.
Qed.

(** X7.  In [localStorage] the selector writes the key ["i18nextLng"]
    and no other: every other key keeps the value the instance was
    mounted with, in every run.  Before the first committed render the
    storage is untouched; after it, ["i18nextLng"] holds the language
    (or ["undefined"]) i18n had at the last committed render that ran
    the second effect. *)
Theorem storage_holds_last_language d acts l now h0 (sigma : gmap string string) :
  let s := run d acts (mount l now h0 sigma) in
  (forall k, k <> "i18nextLng" -> localStorage (env s) !! k = sigma !! k) /\
  (forall l' cur, deps (hk s) = Some (l', cur) ->
     localStorage (env s) !! "i18nextLng" = Some (js_string l')) /\
  (deps (hk s) = None -> localStorage (env s) = sigma).
Proof.
  cbv zeta.
  assert (Hgen : forall acts (s : Sys),
            (forall k, k <> "i18nextLng" -> localStorage (env s) !! k = sigma !! k) ->
            stored_language s ->
            (deps (hk s) = None -> localStorage (env s) = sigma) ->
            (forall k, k <> "i18nextLng" ->
               localStorage (env (run d acts s)) !! k = sigma !! k) /\
            stored_language (run d acts s) /\
            (deps (hk (run d acts s)) = None -> localStorage (env (run d acts s)) = sigma)).
  { clear acts. induction acts as [| a rest IH]; intros s H1 H2 H3; cbn [run].
    - repeat split; assumption.
    - destruct (storage_step d a s sigma H1 H2 H3) as (H1' & H2' & H3').
      apply IH; assumption. }
  apply Hgen.
  - reflexivity.
  - intros l' cur E. discriminate E.
  - reflexivity.
Qed.

End LanguageSelectorFacts.


(** * Properties of LanguageMorphingTitle *)

Module LanguageMorphingTitleFacts.

Import LanguageMorphingTitle.

Ltac lmt_unfold :=
  unfold on_st, on_refs, on_env, Date_now; prog_unfold.

Ltac lmt_proj :=
  cbn [st refs env mounted shouldMorph texts previousLanguageRef animationTimeoutRef
       initializedRef isChangingRef lastChangeTimeRef language clock timers console
       set_timers].

Section Instance.

Variable t : string -> string -> string.
Variable props : Props.


(** ** The effects, the timers and the steps, in closed form *)

Lemma language_effect_unfold (s : Sys) :
  exec (language_effect t props) s =
  if isChangingRef (refs s) then ignored s
  else if negb (String.eqb (previousLanguageRef (refs s)) (language (env s))) then
    if negb (String.eqb (oldText t props s) (newText t props s))
    then morphing t props s else skipped t props s
  else ignored s.
Proof.
  unfold LanguageMorphingTitle.language_effect, console_log, set_isChangingRef,
    set_lastChangeTimeRef, setTexts, setShouldMorph, clearTimeout,
    set_animationTimeoutRef, setTimeout, set_previousLanguageRef.
  lmt_unfold. lmt_proj.
  unfold ignored, skipped, morphing, logged_detected, logged_languages, cleared_queue,
    oldText, newText.
  destruct (isChangingRef (refs s)); [reflexivity |].
  destruct (negb (String.eqb (previousLanguageRef (refs s)) (language (env s))));
    [| reflexivity].
  prog_red. lmt_proj.
  destruct (clock (env s) - lastChangeTimeRef (refs s) <? MIN_ANIMATION_DURATION);
    prog_red; lmt_proj;
    (destruct (negb (String.eqb _ _)); prog_red; lmt_proj; [| reflexivity];
     destruct (animationTimeoutRef (refs s)); reflexivity).
Qed.

Lemma init_effect_unfold (s : Sys) :
  exec (init_effect t props) s =
  if initializedRef (refs s) then s
  else
    let currentText := t (language (env s)) (translationKey props) in
    mkSys (mkState (shouldMorph (st s)) (currentText, currentText))
          (mkRefs (previousLanguageRef (refs s)) (animationTimeoutRef (refs s)) true
                  (isChangingRef (refs s)) (lastChangeTimeRef (refs s)))
          (env s) (mounted s).
Proof.
  unfold init_effect, setTexts, set_initializedRef. lmt_unfold.
  destruct (initializedRef (refs s)); reflexivity.
Qed.

Lemma complete_animation_unfold (s : Sys) :
  exec (complete_animation t props) s =
  let finalText := t (language (env s)) (translationKey props) in
  mkSys (mkState false (finalText, finalText))
        (mkRefs (previousLanguageRef (refs s)) None (initializedRef (refs s)) false
                (lastChangeTimeRef (refs s)))
        (mkEnv (language (env s)) (clock (env s)) (timers (env s))
               (console (env s) ++ [LogCompleted finalText]))
        (mounted s).
Proof. reflexivity. Qed.

Lemma title_commit_unfold (s : Sys) :
  exec (commit t props) s =
  if mounted s then exec (language_effect t props) (exec (init_effect t props) s) else s.
Proof. unfold commit. prog_unfold. destruct (mounted s); reflexivity. Qed.

Lemma title_unmount_unfold (s : Sys) :
  exec unmount s =
  if mounted s then
    mkSys (st s)
          (match animationTimeoutRef (refs s) with
           | Some _ => mkRefs (previousLanguageRef (refs s)) None (initializedRef (refs s))
                         (isChangingRef (refs s)) (lastChangeTimeRef (refs s))
           | None => refs s
           end)
          (set_timers (cleared_queue s) (env s))
          false
  else s.
Proof.
  unfold unmount, unmount_cleanup, clearTimeout, set_animationTimeoutRef, set_mounted,
    cleared_queue.
  lmt_unfold.
  destruct (mounted s); [| reflexivity].
  destruct (animationTimeoutRef (refs s)); [reflexivity |].
  destruct s as [? ? [] ?]; reflexivity.
Qed.

Lemma title_fire_unfold (h : positive) (s : Sys) :
  exec (fire t props h) s =
  match find_timer h (timers (env s)) with
  | Some tm =>
      if due (clock (env s)) tm then
        exec (complete_animation t props)
          (mkSys (st s) (refs s) (set_timers (cancel h (timers (env s))) (env s))
                 (mounted s))
      else s
  | None => s
  end.
Proof.
  unfold fire, clearTimeout. lmt_unfold.
  destruct (find_timer h (timers (env s))) as [tm |]; [| reflexivity].
  destruct (due (clock (env s)) tm); [| reflexivity].
  destruct (timer_cb tm); reflexivity.
Qed.

(** ** The invariant *)

Lemma cancel_nil {C} h (q : Timers C) : pending q = [] -> pending (cancel h q) = [].
Proof. intros E. unfold cancel. rewrite E. reflexivity. Qed.

Lemma cancel_own {C} (q : Timers C) tm :
  pending q = [tm] -> pending (cancel (timer_id tm) q) = [].
Proof.
  intros E. unfold cancel. rewrite E. cbn [pending List.filter].
  rewrite Pos.eqb_refl. reflexivity.
Qed.

Lemma find_timer_single {C} h (q : Timers C) tm tm' :
  pending q = [tm] -> find_timer h q = Some tm' -> tm' = tm /\ timer_id tm = h.
Proof.
  intros E Hf. destruct (find_timer_some _ _ _ Hf) as [Hin Hid].
  rewrite E in Hin. destruct Hin as [<- | []]. split; [reflexivity | exact Hid].
Qed.

Lemma find_timer_nil {C} h (q : Timers C) : pending q = [] -> find_timer h q = None.
Proof. intros E. unfold find_timer. rewrite E. reflexivity. Qed.

(** The timer the component holds is the only one there can be, so
    cancelling it empties the queue. *)
Lemma cleared_queue_empty (s : Sys) :
  at_most_one s ->
  pending (cleared_queue s) = [] /\
  next_handle (cleared_queue s) = next_handle (timers (env s)).
Proof.
  unfold cleared_queue. intros [E | (tm & E & Href)].
  - destruct (animationTimeoutRef (refs s)); split; try reflexivity; try exact E.
    apply cancel_nil, E.
  - rewrite Href. split; [apply cancel_own, E | reflexivity].
Qed.

Lemma pending_morphing (s : Sys) :
  at_most_one s ->
  pending (timers (env (morphing t props s))) = [completion_timer props s] /\
  animationTimeoutRef (refs (morphing t props s)) = Some (next_handle (timers (env s))).
Proof.
  intros H1. destruct (cleared_queue_empty s H1) as [Hnil Hnext].
  unfold morphing, completion_timer, schedule. cbv zeta. lmt_proj. cbn [snd pending].
  rewrite Hnil, Hnext. split; reflexivity.
Qed.

Lemma title_inv_mount lang now h0 : inv (mount lang now h0).
Proof.
  unfold inv, at_most_one, mount. lmt_proj. cbn [pending].
  split; [left; reflexivity |]. split; [reflexivity |]. split; discriminate.
Qed.

Lemma inv_init_effect (s : Sys) : inv s -> inv (exec (init_effect t props) s).
Proof.
  intros Hinv. rewrite init_effect_unfold.
  destruct (initializedRef (refs s)); [exact Hinv |].
  destruct Hinv as (H1 & H2 & H3 & H4). cbv zeta.
  unfold inv, at_most_one. lmt_proj.
  split; [exact H1 |]. split; [exact H2 |]. split; [exact H3 | reflexivity].
Qed.

Lemma initialized_init_effect (s : Sys) :
  initializedRef (refs (exec (init_effect t props) s)) = true.
Proof.
  rewrite init_effect_unfold.
  destruct (initializedRef (refs s)) eqn:E; [exact E | reflexivity].
Qed.

Lemma mounted_init_effect (s : Sys) :
  mounted (exec (init_effect t props) s) = mounted s.
Proof. rewrite init_effect_unfold. destruct (initializedRef (refs s)); reflexivity. Qed.

Lemma inv_language_effect (s : Sys) :
  mounted s = true ->
  initializedRef (refs s) = true ->
  inv s -> inv (exec (language_effect t props) s).
Proof.
  intros Hm Hi Hinv. pose proof Hinv as (H1 & H2 & H3 & H4).
  rewrite language_effect_unfold.
  destruct (isChangingRef (refs s)) eqn:Hg; [exact Hinv |].
  destruct (negb (String.eqb _ _)); [| exact Hinv].
  destruct (negb (String.eqb _ _)).
  - destruct (pending_morphing s H1) as [Hp Href].
    unfold inv, at_most_one. rewrite Hp, Href.
    split; [right; exists (completion_timer props s); split; reflexivity |].
    unfold morphing. cbv zeta. lmt_proj.
    split; [congruence | split; [reflexivity | intros _; exact Hi]].
  - unfold inv, at_most_one, skipped. lmt_proj.
    split; [exact H1 |]. split; [exact H2 |]. split; [| discriminate].
    intros Hs. specialize (H3 Hs). congruence.
Qed.

Lemma inv_fire h (s : Sys) : inv s -> inv (exec (fire t props h) s).
Proof.
  intros Hinv. pose proof Hinv as (H1 & H2 & H3 & H4).
  rewrite title_fire_unfold.
  destruct (find_timer h (timers (env s))) as [tm |] eqn:Hf; [| exact Hinv].
  destruct (due (clock (env s)) tm); [| exact Hinv].
  rewrite complete_animation_unfold. cbv zeta.
  unfold inv, at_most_one. lmt_proj.
  assert (Hnil : pending (cancel h (timers (env s))) = []).
  { destruct H1 as [E | (tm' & E & _)]; [apply cancel_nil, E |].
    destruct (find_timer_single _ _ _ _ E Hf) as [_ <-]. apply cancel_own, E. }
  split; [left; exact Hnil |]. split; [intros _; exact Hnil |].
  split; discriminate.
Qed.

Lemma inv_unmount (s : Sys) : inv s -> inv (exec unmount s).
Proof.
  intros Hinv. pose proof Hinv as (H1 & H2 & H3 & H4).
  rewrite title_unmount_unfold. destruct (mounted s); [| exact Hinv].
  destruct (cleared_queue_empty s H1) as [Hnil _].
  unfold inv, at_most_one. lmt_proj.
  split; [left; exact Hnil |]. split; [intros _; exact Hnil |].
  destruct (animationTimeoutRef (refs s)); lmt_proj; split; assumption.
Qed.

Lemma title_inv_step a (s : Sys) : inv s -> inv (exec (step t props a) s).
Proof.
  intros Hinv. destruct a; cbn [step].
  - rewrite title_commit_unfold. destruct (mounted s) eqn:Hm; [| exact Hinv].
    apply inv_language_effect.
    + rewrite mounted_init_effect. exact Hm.
    + apply initialized_init_effect.
    + apply inv_init_effect, Hinv.
  - apply inv_fire, Hinv.
  - exact Hinv.
  - exact Hinv.
  - apply inv_unmount, Hinv.
Qed.

Lemma title_reachable_inv (s : Sys) : reachable t props s -> inv s.
Proof.
  induction 1 as [lang now h0 | a s _ IH].
  - apply title_inv_mount.
  - apply title_inv_step, IH.
Qed.

Lemma title_reachable_run acts (s : Sys) :
  reachable t props s -> reachable t props (run t props acts s).
Proof.
  revert s. induction acts as [| a rest IH]; intros s Hr; cbn [run].
  - exact Hr.
  - apply IH, reach_step, Hr.
Qed.

(** ** The second effect *)

Lemma detects_change_guards (s : Sys) :
  detects_change s ->
  isChangingRef (refs s) = false /\
  negb (String.eqb (previousLanguageRef (refs s)) (language (env s))) = true.
Proof.
  intros [Hg Hne]. split; [exact Hg |].
  apply negb_true_iff, String.eqb_neq. exact Hne.
Qed.

(** An accepted change, by cases on the two texts. *)
Lemma language_effect_accepts (s : Sys) :
  detects_change s ->
  exec (language_effect t props) s =
  if negb (String.eqb (oldText t props s) (newText t props s))
  then morphing t props s else skipped t props s.
Proof.
  intros Hd. destruct (detects_change_guards s Hd) as [Hg Hne].
  rewrite language_effect_unfold, Hg, Hne. reflexivity.
Qed.

(** The early return of the second effect. *)
Lemma guard_returns_early (s : Sys) :
  isChangingRef (refs s) = true ->
  exec (language_effect t props) s = ignored s.
Proof. intros Hg. rewrite language_effect_unfold, Hg. reflexivity. Qed.

(** C5.  While the in-flight guard [isChangingRef] is set, the second
    effect returns early: the display pair, [shouldMorph], the five
    references (among them the last-seen language and the timer handle)
    and the timer queue are left as they are; the effect has only logged
    its first line. *)
Theorem in_flight_change_is_ignored (s : Sys) :
  isChangingRef (refs s) = true ->
  let s' := exec (language_effect t props) s in
  untouched s s' /\
  language (env s') = language (env s) /\
  clock (env s') = clock (env s) /\
  console (env s') = logged_languages s.
Proof.
  intros Hg. cbv zeta. rewrite (guard_returns_early s Hg).
  unfold untouched, ignored. lmt_proj. repeat split.
Qed.

(** The same for a whole committed render of a reachable instance. *)
Lemma in_flight_commit_is_ignored (s : Sys) :
  reachable t props s ->
  isChangingRef (refs s) = true ->
  untouched s (exec (step t props Commit) s).
Proof.
  intros Hr Hg. destruct (title_reachable_inv s Hr) as (_ & _ & _ & Hi).
  cbn [step]. rewrite title_commit_unfold. destruct (mounted s); [| repeat split].
  rewrite init_effect_unfold, (Hi Hg), (guard_returns_early s Hg).
  repeat split.
Qed.

(** C2, as the code has it.  A change detected less than
    [MIN_ANIMATION_DURATION] after the last accepted one is not rejected.
    The effect logs that the change came too fast and then accepts it as
    it accepts any other: it records the time and the language, and the
    state, the references and the timer queue it leaves do not depend on
    the time of the last accepted change. *)
Theorem too_frequent_change_is_accepted (s : Sys) :
  detects_change s ->
  too_frequent s ->
  let s' := exec (language_effect t props) s in
  In (LogTooFast (clock (env s) - lastChangeTimeRef (refs s))) (console (env s')) /\
  lastChangeTimeRef (refs s') = clock (env s) /\
  previousLanguageRef (refs s') = language (env s) /\
  isChangingRef (refs s') = negb (String.eqb (oldText t props s) (newText t props s)) /\
  (forall v,
     let r := exec (language_effect t props) (with_last_change v s) in
     st s' = st r /\ refs s' = refs r /\ timers (env s') = timers (env r)).
Proof.
  intros Hd Hfast. cbv zeta.
  assert (Hlog : forall l,
            In (LogTooFast (clock (env s) - lastChangeTimeRef (refs s)))
               (logged_detected t props s ++ l)).
  { intros l. unfold logged_detected. cbv zeta.
    rewrite (proj2 (Z.ltb_lt _ _) Hfast).
    apply in_or_app. left. apply in_or_app. left. apply in_or_app. right.
    left. reflexivity. }
  assert (Hd' : forall v, detects_change (with_last_change v s)) by (intros v; exact Hd).
  rewrite (language_effect_accepts s Hd).
  split; [| split; [| split; [| split]]].
  - destruct (negb (String.eqb _ _)); unfold morphing, skipped; cbv zeta; lmt_proj.
    + apply Hlog.
    + rewrite <- (app_nil_r (logged_detected t props s)). apply Hlog.
  - destruct (negb (String.eqb _ _)); reflexivity.
  - destruct (negb (String.eqb _ _)); reflexivity.
  - destruct (negb (String.eqb _ _)); reflexivity.
  - intros v. rewrite (language_effect_accepts _ (Hd' v)).
    change (oldText t props (with_last_change v s)) with (oldText t props s).
    change (newText t props (with_last_change v s)) with (newText t props s).
    destruct (negb (String.eqb _ _)); repeat split.
Qed.

(** The completion timer may fire once its delay has elapsed. *)
Lemma due_iff now (tm : Timer Callback) :
  due now tm = true <-> (inject_Z (timer_set tm) + timer_delay tm <= inject_Z now)%Q.
Proof. unfold due. apply Qle_bool_iff. Qed.





(** C4, as the code has it.  When the second effect accepts a change
    between two languages with the same text, [shouldMorph] stays false
    and the display pair stays as it is, no timer is queued, the in-flight
    guard is clear again, and the references updated are the last-seen
    language and the time of the last accepted change. *)
Theorem same_text_skips_animation (s : Sys) :
  reachable t props s ->
  detects_change s ->
  oldText t props s = newText t props s ->
  let s' := exec (language_effect t props) s in
  shouldMorph (st s') = false /\
  st s' = st s /\
  timers (env s') = timers (env s) /\
  isChangingRef (refs s') = false /\
  refs s' = mkRefs (language (env s)) (animationTimeoutRef (refs s))
              (initializedRef (refs s)) (isChangingRef (refs s)) (clock (env s)).
Proof.
  intros Hr Hd Heq. cbv zeta.
  destruct (title_reachable_inv s Hr) as (_ & _ & H3 & _).
  rewrite (language_effect_accepts s Hd), Heq, String.eqb_refl. cbn [negb].
  destruct Hd as [Hg _]. unfold skipped. lmt_proj. rewrite Hg.
  repeat split.
  destruct (shouldMorph (st s)); [| reflexivity].
  specialize (H3 eq_refl). congruence.
Qed.

(** ** Timers *)

(** An unmounted instance without timers stays as it is, whatever
    happens around it. *)
Lemma unmounted_is_frozen acts (s : Sys) :
  mounted s = false ->
  pending (timers (env s)) = [] ->
  let s' := run t props acts s in
  st s' = st s /\ refs s' = refs s /\ console (env s') = console (env s) /\
  pending (timers (env s')) = [] /\ mounted s' = false.
Proof.
  revert s. induction acts as [| a rest IH]; intros s Hm Hnil; cbv zeta; cbn [run].
  - repeat split; assumption.
  - assert (Hstep : let s1 := exec (step t props a) s in
                    st s1 = st s /\ refs s1 = refs s /\
                    console (env s1) = console (env s) /\
                    pending (timers (env s1)) = [] /\ mounted s1 = false).
    { cbv zeta. destruct a; cbn [step].
      - rewrite title_commit_unfold, Hm. repeat split; assumption.
      - rewrite title_fire_unfold, (find_timer_nil h _ Hnil). repeat split; assumption.
      - repeat split; assumption.
      - repeat split; assumption.
      - rewrite title_unmount_unfold, Hm. repeat split; assumption. }
    cbv zeta in Hstep. destruct Hstep as (E1 & E2 & E3 & E4 & E5).
    specialize (IH _ E5 E4). cbv zeta in IH.
    destruct IH as (I1 & I2 & I3 & I4 & I5).
    rewrite I1, I2, I3, E1, E2, E3. repeat split; assumption.
Qed.

(** C8.  Unmounting cancels the pending completion timer: right after the
    unmount the queue is empty, [shouldMorph], the display pair and the
    guard references are those before the unmount, and whatever happens
    afterwards no timer fires and the state, the references and the
    console stay as the unmount left them. *)
Theorem unmount_cancels_completion (s : Sys) acts :
  reachable t props s ->
  let u := exec (step t props Unmount) s in
  let s' := run t props acts u in
  pending (timers (env u)) = [] /\
  st u = st s /\
  isChangingRef (refs u) = isChangingRef (refs s) /\
  previousLanguageRef (refs u) = previousLanguageRef (refs s) /\
  lastChangeTimeRef (refs u) = lastChangeTimeRef (refs s) /\
  st s' = st u /\
  refs s' = refs u /\
  console (env s') = console (env u) /\
  pending (timers (env s')) = [] /\
  (forall h, exec (step t props (Fire h)) s' = s').
Proof.
  intros Hr. cbv zeta.
  pose proof (title_reachable_inv s Hr) as Hinv.
  pose proof (inv_unmount s Hinv) as (_ & Hnil & _).
  assert (Hm : mounted (exec unmount s) = false).
  { rewrite title_unmount_unfold. destruct (mounted s) eqn:E; [reflexivity | exact E]. }
  specialize (Hnil Hm).
  destruct (unmounted_is_frozen acts _ Hm Hnil) as (F1 & F2 & F3 & F4 & _).
  cbn [step].
  split; [exact Hnil |].
  assert (Hu : st (exec unmount s) = st s /\
               isChangingRef (refs (exec unmount s)) = isChangingRef (refs s) /\
               previousLanguageRef (refs (exec unmount s)) = previousLanguageRef (refs s) /\
               lastChangeTimeRef (refs (exec unmount s)) = lastChangeTimeRef (refs s)).
  { rewrite title_unmount_unfold. destruct (mounted s); [| repeat split].
    lmt_proj. destruct (animationTimeoutRef (refs s)); repeat split. }
  destruct Hu as (U1 & U2 & U3 & U4).
  repeat (split; [assumption |]).
  intros h. rewrite title_fire_unfold, (find_timer_nil h _ F4). reflexivity.
Qed.

Lemma at_most_one_length (s : Sys) :
  at_most_one s ->
  (length (pending (timers (env s))) <= 1)%nat /\
  (forall tm, In tm (pending (timers (env s))) ->
     animationTimeoutRef (refs s) = Some (timer_id tm)).
Proof.
  intros [E | (tm & E & Href)]; rewrite E; cbn [length In].
  - split; [lia | intros tm' []].
  - split; [lia | intros tm' [<- | []]; exact Href].
Qed.

(** The effect cancels the timer the component holds before it queues a
    new one, in any state, reachable or not. *)
Lemma prior_timer_is_cancelled (s : Sys) tm :
  pending (timers (env s)) = [tm] ->
  animationTimeoutRef (refs s) = Some (timer_id tm) ->
  detects_change s ->
  oldText t props s <> newText t props s ->
  pending (timers (env (exec (language_effect t props) s))) = [completion_timer props s].
Proof.
  intros E Href Hd Hne.
  rewrite (language_effect_accepts s Hd).
  rewrite (proj2 (negb_true_iff _) (proj2 (String.eqb_neq _ _) Hne)).
  apply pending_morphing. right. exists tm. split; assumption.
Qed.

(** C9.  In every reachable state at most one completion timer is
    pending, and it is the one [animationTimeoutRef] holds; a step that
    queues a timer leaves the new timer as the only one pending. *)
Theorem one_completion_timer (s : Sys) :
  reachable t props s ->
  (length (pending (timers (env s))) <= 1)%nat /\
  (forall tm, In tm (pending (timers (env s))) ->
     animationTimeoutRef (refs s) = Some (timer_id tm)) /\
  (forall a,
     let s' := exec (step t props a) s in
     next_handle (timers (env s')) <> next_handle (timers (env s)) ->
     pending (timers (env s')) = [completion_timer props s] /\
     animationTimeoutRef (refs s') = Some (next_handle (timers (env s)))).
Proof.
  intros Hr. pose proof (title_reachable_inv s Hr) as Hinv.
  destruct (at_most_one_length s (proj1 Hinv)) as [Hlen Hheld].
  split; [exact Hlen |]. split; [exact Hheld |].
  intros a. cbv zeta. destruct a; cbn [step]; intros Hnew.
  - revert Hnew. rewrite title_commit_unfold.
    destruct (mounted s); [| intros Hnew; destruct (Hnew eq_refl)].
    pose proof (inv_init_effect s Hinv) as (H1 & _).
    assert (Henv : env (exec (init_effect t props) s) = env s).
    { rewrite init_effect_unfold. destruct (initializedRef (refs s)); reflexivity. }
    set (s0 := exec (init_effect t props) s) in *.
    rewrite language_effect_unfold.
    destruct (pending_morphing s0 H1) as [Hp Href].
    unfold completion_timer in *. rewrite Henv in Hp, Href.
    destruct (isChangingRef (refs s0));
      [unfold ignored; lmt_proj; rewrite Henv; intros Hnew; destruct (Hnew eq_refl) |].
    destruct (negb (String.eqb _ _));
      [| unfold ignored; lmt_proj; rewrite Henv; intros Hnew; destruct (Hnew eq_refl)].
    destruct (negb (String.eqb _ _)).
    + intros _. split; assumption.
    + unfold skipped; lmt_proj; rewrite Henv; intros Hnew; destruct (Hnew eq_refl).
  - exfalso. apply Hnew. rewrite title_fire_unfold.
    destruct (find_timer h (timers (env s))) as [tm |]; [| reflexivity].
    destruct (due (clock (env s)) tm); reflexivity.
  - destruct (Hnew eq_refl).
  - destruct (Hnew eq_refl).
  - exfalso. apply Hnew. rewrite title_unmount_unfold.
    destruct (mounted s); [| reflexivity].
    lmt_proj. unfold cleared_queue. destruct (animationTimeoutRef (refs s)); reflexivity.
Qed.

End Instance.

(** ** The duration of the animation *)


Lemma duration_when_longer props :
  (inject_Z MIN_ANIMATION_DURATION
     <= (morphTime props + cooldownTime props) * 1000 + 500)%Q ->
  (getTotalAnimationDuration props
     == (morphTime props + cooldownTime props) * 1000 + 500)%Q.
Proof. intros H. unfold getTotalAnimationDuration. cbv zeta. apply Q.max_l, H. Qed.

Example default_duration key :
  getTotalAnimationDuration (default_props key) = 2500%Q.
Proof. reflexivity. Qed.

(** ** The scenarios *)

Lemma reachable_idle_en : reachable demo_t demo_props idle_en.
Proof. apply title_reachable_run, reach_mount. Qed.

Lemma reachable_en_to_es : reachable demo_t demo_props en_to_es.
Proof. apply title_reachable_run, reachable_idle_en. Qed.

Lemma reachable_morphing_es : reachable demo_t demo_props morphing_es.
Proof. apply title_reachable_run, reachable_en_to_es. Qed.

Lemma reachable_en_to_fr : reachable demo_t demo_props en_to_fr.
Proof. apply title_reachable_run, reachable_idle_en. Qed.

Lemma reachable_fr_to_es_soon : reachable demo_t demo_props fr_to_es_soon.
Proof. apply title_reachable_run, reachable_en_to_fr. Qed.

Lemma in_flight_change_is_ignored_witness :
  isChangingRef (refs morphing_es) = true /\
  previousLanguageRef (refs morphing_es) <> language (env morphing_es) /\
  untouched morphing_es (exec (language_effect demo_t demo_props) morphing_es).
Proof.
  assert (Hg : isChangingRef (refs morphing_es) = true) by (vm_compute; reflexivity).
  split; [exact Hg |]. split; [vm_compute; discriminate |].
  apply (in_flight_change_is_ignored demo_t demo_props morphing_es Hg).
Defined.

Lemma fr_to_es_soon_detects : detects_change fr_to_es_soon.
Proof. split; [vm_compute; reflexivity | vm_compute; discriminate]. Defined.

Lemma fr_to_es_soon_too_frequent : too_frequent fr_to_es_soon.
Proof. vm_compute. reflexivity. Defined.

Lemma too_frequent_change_is_accepted_witness :
  detects_change fr_to_es_soon /\ too_frequent fr_to_es_soon /\
  In (LogTooFast 500)
     (console (env (exec (language_effect demo_t demo_props) fr_to_es_soon))) /\
  isChangingRef (refs (exec (language_effect demo_t demo_props) fr_to_es_soon)) = true.
Proof.
  split; [exact fr_to_es_soon_detects |]. split; [exact fr_to_es_soon_too_frequent |].
  destruct (too_frequent_change_is_accepted demo_t demo_props fr_to_es_soon
              fr_to_es_soon_detects fr_to_es_soon_too_frequent)
    as (Hlog & _ & _ & Hguard & _).
  split; [exact Hlog | exact Hguard].
Defined.

(** C2, as the specification words it, fails: 500 ms after the switch to
    French was accepted, the switch to Spanish is accepted too and starts
    the animation. *)
Lemma too_frequent_change_not_rejected :
  detects_change fr_to_es_soon /\
  too_frequent fr_to_es_soon /\
  shouldMorph (st fr_to_es_soon) = false /\
  shouldMorph (st (exec (language_effect demo_t demo_props) fr_to_es_soon)) = true /\
  ~ rejects_too_frequent demo_t demo_props.
Proof.
  split; [exact fr_to_es_soon_detects |]. split; [exact fr_to_es_soon_too_frequent |].
  split; [vm_compute; reflexivity |]. split; [vm_compute; reflexivity |].
  intros Hclaim.
  destruct (Hclaim fr_to_es_soon fr_to_es_soon_detects fr_to_es_soon_too_frequent)
    as (Hst & _).
  apply (f_equal shouldMorph) in Hst. vm_compute in Hst. discriminate Hst.
Qed.



Lemma en_to_fr_detects : detects_change en_to_fr.
Proof. split; [vm_compute; reflexivity | vm_compute; discriminate]. Defined.

Lemma en_to_fr_same_text :
  oldText demo_t demo_props en_to_fr = newText demo_t demo_props en_to_fr.
Proof. vm_compute. reflexivity. Defined.

Lemma same_text_skips_animation_witness :
  reachable demo_t demo_props en_to_fr /\
  detects_change en_to_fr /\
  oldText demo_t demo_props en_to_fr = newText demo_t demo_props en_to_fr /\
  shouldMorph (st (exec (language_effect demo_t demo_props) en_to_fr)) = false /\
  refs (exec (language_effect demo_t demo_props) en_to_fr)
    = mkRefs "fr" None true false start_time.
Proof.
  split; [exact reachable_en_to_fr |]. split; [exact en_to_fr_detects |].
  split; [exact en_to_fr_same_text |].
  destruct (same_text_skips_animation demo_t demo_props en_to_fr
              reachable_en_to_fr en_to_fr_detects en_to_fr_same_text)
    as (Hmorph & _ & _ & _ & Hrefs).
  split; [exact Hmorph | exact Hrefs].
Defined.

(** C4, as the specification words it, fails: the switch from English to
    French updates the last-seen language and also the time of the last
    accepted change. *)
Lemma same_text_updates_timestamp :
  detects_change en_to_fr /\
  oldText demo_t demo_props en_to_fr = newText demo_t demo_props en_to_fr /\
  lastChangeTimeRef (refs en_to_fr) = 0 /\
  lastChangeTimeRef (refs (exec (language_effect demo_t demo_props) en_to_fr))
    = start_time /\
  ~ updates_only_last_seen demo_t demo_props.
Proof.
  split; [exact en_to_fr_detects |]. split; [exact en_to_fr_same_text |].
  split; [vm_compute; reflexivity |]. split; [vm_compute; reflexivity |].
  intros Hclaim.
  destruct (Hclaim en_to_fr en_to_fr_detects en_to_fr_same_text) as (_ & _ & Hrefs).
  apply (f_equal lastChangeTimeRef) in Hrefs. vm_compute in Hrefs. discriminate Hrefs.
Qed.

Lemma unmount_cancels_completion_witness :
  reachable demo_t demo_props morphing_es /\
  length (pending (timers (env morphing_es))) = 1%nat /\
  pending (timers (env (exec (step demo_t demo_props Unmount) morphing_es))) = [] /\
  st (run demo_t demo_props [Tick 5000; Fire 1; Commit]
        (exec (step demo_t demo_props Unmount) morphing_es))
    = st morphing_es.
Proof.
  split; [exact reachable_morphing_es |]. split; [vm_compute; reflexivity |].
  destruct (unmount_cancels_completion demo_t demo_props morphing_es
              [Tick 5000; Fire 1%positive; Commit] reachable_morphing_es)
    as (Hnil & Hst & _ & _ & _ & Hlater & _).
  split; [exact Hnil |]. rewrite Hlater. exact Hst.
Defined.

Lemma one_completion_timer_witness :
  reachable demo_t demo_props morphing_es /\
  (length (pending (timers (env morphing_es))) <= 1)%nat /\
  animationTimeoutRef (refs morphing_es) = Some 1%positive.
Proof.
  split; [exact reachable_morphing_es |].
  destruct (one_completion_timer demo_t demo_props morphing_es reachable_morphing_es)
    as (Hlen & Hheld & _).
  split; [exact Hlen |].
  apply (Hheld (mkTimer 1 start_time 2500 CompleteAnimation)).
  vm_compute. left. reflexivity.
Defined.

(** ** Beyond the claims: the duration of the animation *)



(** ** Beyond the claims: the display pair and the completion timer *)

Section Display.

Variable t : string -> string -> string.
Variable props : Props.

Lemma inv_display_mount lang now h0 : inv_display props (mount lang now h0).
Proof.
  unfold inv_display, mount. lmt_proj. cbn [pending fst snd].
  split; [reflexivity |]. split; [discriminate |]. split; [discriminate |].
  split; [reflexivity |]. split; [intros tm [] | discriminate].
Qed.

Lemma inv_display_init_effect (s : Sys) :
  inv s -> inv_display props s -> inv_display props (exec (init_effect t props) s).
Proof.
  intros (_ & _ & H3 & H4) Hd. rewrite init_effect_unfold.
  destruct (initializedRef (refs s)) eqn:Hi; [exact Hd |].
  destruct Hd as (D1 & D2 & D3 & D4 & D5 & D6). cbv zeta.
  unfold inv_display. lmt_proj. cbn [fst snd].
  split; [reflexivity |]. split; [| repeat (split; [assumption |]); exact D6].
  intros Hm. specialize (H4 (H3 Hm)). congruence.
Qed.

Lemma inv_display_language_effect (s : Sys) :
  inv s -> inv_display props s ->
  inv_display props (exec (language_effect t props) s).
Proof.
  intros (H1 & _) Hd. pose proof Hd as (D1 & D2 & D3 & D4 & D5 & D6).
  rewrite language_effect_unfold.
  destruct (isChangingRef (refs s)) eqn:Hg; [exact Hd |].
  destruct (negb (String.eqb _ _)); [| exact Hd].
  destruct (negb (String.eqb (oldText t props s) (newText t props s))) eqn:Hne.
  - destruct (pending_morphing t props s H1) as [Hp _].
    unfold inv_display. rewrite Hp.
    unfold morphing, completion_timer. cbv zeta. lmt_proj. cbn [fst snd].
    split; [discriminate |]. split.
    + intros _. apply String.eqb_neq, negb_true_iff. exact Hne.
    + split; [reflexivity |]. split; [discriminate |]. split; [| discriminate].
      intros tm [<- | []]. split; reflexivity.
  - unfold inv_display, skipped. lmt_proj.
    split; [exact D1 |]. split; [exact D2 |]. split; [discriminate |].
    split; [intros _; exact (D4 eq_refl) |]. split; [| discriminate].
    intros tm Ht. rewrite (D4 eq_refl) in Ht. destruct Ht.
Qed.

Lemma inv_display_fire h (s : Sys) :
  inv s -> inv_display props s -> inv_display props (exec (fire t props h) s).
Proof.
  intros (H1 & _) Hd.
  rewrite title_fire_unfold.
  destruct (find_timer h (timers (env s))) as [tm |] eqn:Hf; [| exact Hd].
  destruct (due (clock (env s)) tm); [| exact Hd].
  rewrite complete_animation_unfold. cbv zeta.
  assert (Hnil : pending (cancel h (timers (env s))) = []).
  { destruct H1 as [E | (tm' & E & _)]; [apply cancel_nil, E |].
    destruct (find_timer_single _ _ _ _ E Hf) as [_ <-]. apply cancel_own, E. }
  unfold inv_display. lmt_proj. cbn [fst snd]. rewrite Hnil.
  split; [reflexivity |]. split; [discriminate |]. split; [discriminate |].
  split; [reflexivity |]. split; [intros tm' [] | discriminate].
Qed.

Lemma inv_display_unmount (s : Sys) :
  inv s -> inv_display props s -> inv_display props (exec unmount s).
Proof.
  intros (H1 & _) Hd. pose proof Hd as (D1 & D2 & D3 & D4 & D5 & D6).
  rewrite title_unmount_unfold. destruct (mounted s); [| exact Hd].
  destruct (cleared_queue_empty s H1) as [Hnil _].
  unfold inv_display. lmt_proj. rewrite Hnil.
  split; [exact D1 |]. split; [exact D2 |].
  split; [destruct (animationTimeoutRef (refs s)); exact D3 |].
  split; [reflexivity |]. split; [intros tm [] | discriminate].
Qed.

Lemma inv_display_step a (s : Sys) :
  inv s -> inv_display props s -> inv_display props (exec (step t props a) s).
Proof.
  intros Hinv Hd. destruct a; cbn [step].
  - rewrite title_commit_unfold. destruct (mounted s); [| exact Hd].
    apply inv_display_language_effect.
    + apply inv_init_effect, Hinv.
    + apply inv_display_init_effect; assumption.
  - apply inv_display_fire; assumption.
  - exact Hd.
  - exact Hd.
  - apply inv_display_unmount; assumption.
Qed.

Lemma reachable_inv_display (s : Sys) : reachable t props s -> inv_display props s.
Proof.
  induction 1 as [lang now h0 | a s Hr IH].
  - apply inv_display_mount.
  - apply inv_display_step; [exact (title_reachable_inv t props s Hr) | exact IH].
Qed.

(** X9.  In every reachable state the display pair and the flags agree:
    the title morphs exactly while the in-flight guard is set; while it
    morphs the two slots hold different texts, and while it does not they
    hold the same text. *)
Theorem display_pair_converges (s : Sys) :
  reachable t props s ->
  (shouldMorph (st s) = isChangingRef (refs s)) /\
  (shouldMorph (st s) = true -> fst (texts (st s)) <> snd (texts (st s))) /\
  (shouldMorph (st s) = false -> fst (texts (st s)) = snd (texts (st s))).
Proof.
  intros Hr. destruct (reachable_inv_display s Hr) as (D1 & D2 & D3 & _).
  destruct (title_reachable_inv t props s Hr) as (_ & _ & H3 & _).
  split; [| split; assumption].
  destruct (shouldMorph (st s)) eqn:Em.
  - symmetry. apply H3. reflexivity.
  - destruct (isChangingRef (refs s)) eqn:Eg; [| reflexivity].
    specialize (D3 eq_refl). congruence.
Qed.


(** X12.  A transition in flight in a mounted instance can always
    complete: its completion timer is pending, held by
    [animationTimeoutRef], and once enough time has passed its firing
    clears the guard, resets [shouldMorph] and shows in both slots the
    text of the language i18n then has.  Enough time does pass. *)
Theorem transition_can_complete (s : Sys) :
  reachable t props s ->
  mounted s = true ->
  isChangingRef (refs s) = true ->
  exists h,
    animationTimeoutRef (refs s) = Some h /\
    (forall n,
       (inject_Z (lastChangeTimeRef (refs s)) + getTotalAnimationDuration props
          <= inject_Z (clock (env s) + Z.of_N n))%Q ->
       let s' := run t props [Tick n; Fire h] s in
       let finalText := t (language (env s)) (translationKey props) in
       isChangingRef (refs s') = false /\
       shouldMorph (st s') = false /\
       texts (st s') = (finalText, finalText) /\
       pending (timers (env s')) = []) /\
    (exists n,
       (inject_Z (lastChangeTimeRef (refs s)) + getTotalAnimationDuration props
          <= inject_Z (clock (env s) + Z.of_N n))%Q).
Proof.
  intros Hr Hm Hg.
  destruct (title_reachable_inv t props s Hr) as (H1 & _).
  destruct (reachable_inv_display s Hr) as (_ & _ & _ & _ & D5 & D6).
  specialize (D6 Hm Hg).
  destruct H1 as [E | (tm & E & Href)]; [contradiction |].
  exists (timer_id tm). split; [exact Href |]. split.
  - intros n Hlate. cbv zeta. cbn [run step].
    set (s1 := exec (on_env _) s).
    assert (E1 : timers (env s1) = timers (env s) /\
                 clock (env s1) = clock (env s) + Z.of_N n /\
                 language (env s1) = language (env s)) by (repeat split).
    destruct E1 as (Eq & Ec & El).
    assert (Hf : find_timer (timer_id tm) (timers (env s1)) = Some tm).
    { rewrite Eq. unfold find_timer. rewrite E. cbn [find].
      rewrite Pos.eqb_refl. reflexivity. }
    assert (Hdue : due (clock (env s1)) tm = true).
    { apply due_iff. destruct (D5 tm) as [Eset Edelay]; [rewrite E; left; reflexivity |].
      rewrite Eset, Edelay, Ec. exact Hlate. }
    rewrite title_fire_unfold, Hf, Hdue, complete_animation_unfold. cbv zeta. lmt_proj.
    rewrite El, Eq. repeat split. apply cancel_own, E.
  - set (x := (inject_Z (lastChangeTimeRef (refs s)) + getTotalAnimationDuration props)%Q).
    exists (Z.to_N (Qceiling x - clock (env s))).
    apply Qle_trans with (inject_Z (Qceiling x)); [apply Qle_ceiling |].
    rewrite <- Zle_Qle. lia.
Qed.

(** The first committed render of a fresh instance. *)
Lemma first_commit lang now h0 :
  exec (step t props Commit) (mount lang now h0) =
  let text := t lang (translationKey props) in
  mkSys (mkState false (text, text))
        (mkRefs lang None true false 0)
        (mkEnv lang now (mkTimers [] h0) [LogLanguages lang lang])
        true.
Proof.
  cbn [step]. rewrite title_commit_unfold. unfold mount at 1. lmt_proj.
  rewrite language_effect_unfold, init_effect_unfold. unfold mount. lmt_proj.
  cbv zeta. lmt_proj. rewrite String.eqb_refl. reflexivity.
Qed.

(** X10.  A fresh instance shows the text of the language it was mounted
    in, without animation, before its effects have run and after: the
    render function draws the plain title first; the first committed
    render fills both slots with that text, starts no transition and
    queues no timer, whatever the clock reads; and from then on the first
    effect never touches the display pair again. *)
Theorem mount_shows_current_text lang now h0 :
  let s0 := mount lang now h0 in
  let s1 := exec (step t props Commit) s0 in
  let text := t lang (translationKey props) in
  render t props lang (st s0) = StaticTitle text /\
  texts (st s1) = (text, text) /\
  shouldMorph (st s1) = false /\
  isChangingRef (refs s1) = false /\
  pending (timers (env s1)) = [] /\
  render t props lang (st s1)
    = (if falsy text then StaticTitle text else GooeyTitle false lang (text, text) 0 0) /\
  initializedRef (refs s1) = true /\
  (forall s, initializedRef (refs s) = true -> exec (init_effect t props) s = s).
Proof.
  cbv zeta. rewrite first_commit. cbv zeta. lmt_proj.
  split; [reflexivity |]. repeat (split; [reflexivity |]).
  split; [| split].
  - unfold render. lmt_proj. cbn [fst snd].
    destruct (falsy (t lang (translationKey props))); reflexivity.
  - reflexivity.
  - intros s Hi. rewrite init_effect_unfold, Hi. reflexivity.
Qed.

Lemma length_append (a b : string) :
  String.length (a ++ b) = (String.length a + String.length b)%nat.
Proof.
  induction a as [| c a IH]; [reflexivity |].
  change (S (String.length (a ++ b)) = S (String.length a + String.length b)).
  rewrite IH. reflexivity.
Qed.

Lemma morphing_key_differs (lang : string) : "morphing-" ++ lang <> lang.
Proof.
  intros E. apply (f_equal String.length) in E. rewrite length_append in E.
  cbn in E. lia.
Qed.

Lemma falsy_empty (x : string) : falsy x = true <-> x = "".
Proof. destruct x; cbn; split; congruence. Qed.

(** X14.  What the render function draws agrees with the state of the
    transition in every reachable state.  While a transition is in flight
    it draws the [GooeyText] with the two different texts, the [morphTime]
    and [cooldownTime] of the props and the key ["morphing-" + language];
    otherwise it draws one text only, as the plain title or as a
    [GooeyText] with equal slots, zero times and the language as key.  The
    two keys differ, so [GooeyText] is remounted when a transition starts
    and when it ends. *)
Theorem render_matches_transition (s : Sys) :
  reachable t props s ->
  let lang := language (env s) in
  let v := render t props lang (st s) in
  (isChangingRef (refs s) = true ->
   v = GooeyTitle true ("morphing-" ++ lang) (texts (st s))
         (morphTime props) (cooldownTime props) /\
   fst (texts (st s)) <> snd (texts (st s))) /\
  (isChangingRef (refs s) = false ->
   (texts (st s) = ("", "") /\ v = StaticTitle (t lang (translationKey props))) \/
   (exists x, x <> "" /\ texts (st s) = (x, x) /\ v = GooeyTitle false lang (x, x) 0 0)) /\
  "morphing-" ++ lang <> lang.
Proof.
  intros Hr. cbv zeta.
  assert (Hflags : shouldMorph (st s) = isChangingRef (refs s) /\
                   (shouldMorph (st s) = true ->
                    fst (texts (st s)) <> snd (texts (st s))) /\
                   (shouldMorph (st s) = false ->
                    fst (texts (st s)) = snd (texts (st s)))).
  { destruct (reachable_inv_display s Hr) as (D1 & D2 & D3 & _).
    destruct (title_reachable_inv t props s Hr) as (_ & _ & H3 & _).
    split; [| split; assumption].
    destruct (shouldMorph (st s)) eqn:Em; [symmetry; apply H3; reflexivity |].
    destruct (isChangingRef (refs s)) eqn:Eg; [| reflexivity].
    specialize (D3 eq_refl). congruence. }
  destruct Hflags as (Eflag & Hdiff & Hsame).
  split; [| split; [| apply morphing_key_differs]].
  - intros Hg. rewrite Hg in Eflag. specialize (Hdiff Eflag).
    split; [| exact Hdiff].
    unfold render. rewrite Eflag.
    destruct (falsy (fst (texts (st s)))) eqn:E1; cbn [andb]; [| reflexivity].
    destruct (falsy (snd (texts (st s)))) eqn:E2; [| reflexivity].
    exfalso. apply Hdiff. apply falsy_empty in E1, E2. congruence.
  - intros Hg. rewrite Hg in Eflag. specialize (Hsame Eflag).
    unfold render. rewrite Eflag.
    destruct (texts (st s)) as [x y] eqn:Et. cbn [fst snd] in *. subst y.
    destruct (falsy x) eqn:E1; cbn [andb].
    + left. apply falsy_empty in E1. subst x. split; reflexivity.
    + right. exists x. split; [| split; reflexivity].
      intros E. subst x. discriminate E1.
Qed.

End Display.

(** ** The scenarios, again *)

Lemma display_pair_converges_witness :
  reachable demo_t demo_props morphing_es /\
  shouldMorph (st morphing_es) = true /\
  fst (texts (st morphing_es)) <> snd (texts (st morphing_es)).
Proof.
  split; [exact reachable_morphing_es |].
  assert (Hm : shouldMorph (st morphing_es) = true) by (vm_compute; reflexivity).
  split; [exact Hm |].
  destruct (display_pair_converges demo_t demo_props morphing_es reachable_morphing_es)
    as (_ & Hdiff & _).
  exact (Hdiff Hm).
Defined.



Lemma transition_can_complete_witness :
  reachable demo_t demo_props morphing_es /\
  mounted morphing_es = true /\
  isChangingRef (refs morphing_es) = true /\
  texts (st (run demo_t demo_props [Tick 2000; Fire 1] morphing_es)) = ("Hello", "Hello").
Proof.
  assert (Hm : mounted morphing_es = true) by (vm_compute; reflexivity).
  assert (Hg : isChangingRef (refs morphing_es) = true) by (vm_compute; reflexivity).
  split; [exact reachable_morphing_es |]. split; [exact Hm |]. split; [exact Hg |].
  destruct (transition_can_complete demo_t demo_props morphing_es
              reachable_morphing_es Hm Hg) as (h & Href & Hfires & _).
  assert (Eh : h = 1%positive) by (vm_compute in Href; congruence).
  subst h.
  destruct (Hfires 2000%N) as (_ & _ & Htexts & _); [vm_compute; discriminate |].
  exact Htexts.
Defined.

Lemma render_matches_transition_witness :
  reachable demo_t demo_props morphing_es /\
  isChangingRef (refs morphing_es) = true /\
  render demo_t demo_props (language (env morphing_es)) (st morphing_es)
    = GooeyTitle true "morphing-en" ("Hello", "Hola") 1 (1 # 4).
Proof.
  assert (Hg : isChangingRef (refs morphing_es) = true) by (vm_compute; reflexivity).
  split; [exact reachable_morphing_es |]. split; [exact Hg |].
  destruct (render_matches_transition demo_t demo_props morphing_es reachable_morphing_es)
    as (Hflight & _).
  destruct (Hflight Hg) as [Hv _]. rewrite Hv. reflexivity.
Defined.

End LanguageMorphingTitleFacts.


(** * Properties of PageTransition *)

Module PageTransitionFacts.

Import PageTransition.

(** What the component itself decides: the presence mode is [wait], and
    the single child is keyed by the current path.  The sequencing of the
    exit and enter animations is the work of framer-motion. *)
Lemma rendered_keyed_by_path {Node : Type} (pathname : string) (content : Node) :
  mode (PageTransition pathname content) = Wait /\
  key (child (PageTransition pathname content)) = pathname /\
  children (child (PageTransition pathname content)) = content.
Proof. repeat split. Qed.

(** Two renders carry the same key exactly when the path is the same. *)
Lemma same_key_same_path {Node : Type} (p1 p2 : string) (c1 c2 : Node) :
  key (child (PageTransition p1 c1)) = key (child (PageTransition p2 c2)) <-> p1 = p2.
Proof. reflexivity. Qed.

End PageTransitionFacts.
